(** * sys_eval: cost evaluation of an energy-system design under linear MPC

    A shallow embedding of [sys_eval.py]: the objective aggregation and the
    receding-horizon control loop of [evaluate_system], and the wrapper
    [construct_and_evaluate_system] with its schema-file cleanup.

    Conventions of the embedding.
    - Quantities that are [float] / numpy [float64] in the source are exact
      rationals ([Q]) here; equalities between computed costs are stated
      with [==] ([Qeq]). Rounding is not modelled.
    - A one-dimensional numpy array is a [list Q]; an observation matrix is
      a list of rows.
    - A Python exception is the [Raise] branch of [result]; it propagates
      through [x ← m; k] exactly as an unhandled exception does.
    - The [while] loop runs on fuel; running out of fuel is reported apart
      from an exception.
    - [CityLearnEnv], [LinProgModel] and [build_schema] are collaborators
      whose code is not part of this file: they are records of operations
      (or a function) that thread the state of the mutable object, and the
      properties that need them to cooperate say so in their hypotheses.
    - [lp.battery_capacities] is a column (shape (m,1)), as
      [x.reshape((lp.N,1))] is; their quotient follows numpy's broadcasting,
      and an entry divided by a zero capacity is not a rational any more
      ([np.NonFinite]).
    - The progress bar, the printing and the timing of the solver
      ([time.perf_counter]) have no effect on the result and are left out.
    - Paths are POSIX paths ([os.path.sep] is [/]). *)

From Stdlib Require Import QArith Qminmax Lqa ZArith Lia Ascii String Sorted.
From stdpp Require Import gmap strings list.

Local Open Scope Q_scope.

(** ** Exceptions *)

Inductive exn : Set :=
| IndexError
| KeyError
| ValueError
| EnvironmentError   (* raised inside the environment *)
| PlannerError       (* raised inside the linear-program model *)
| SchemaError        (* raised inside the schema builder *)
| FileNotFoundError.

Inductive result (A : Type) : Type :=
| Ok (a : A)
| Raise (e : exn).
Arguments Ok {A} a.
Arguments Raise {A} e.

#[global] Instance result_ret : MRet result := λ A a, Ok a.
#[global] Instance result_bind : MBind result :=
  λ A B f m, match m with Ok a => f a | Raise e => Raise e end.
#[global] Instance result_fmap : FMap result :=
  λ A B f m, match m with Ok a => Ok (f a) | Raise e => Raise e end.

(** [seq[i]] and [dict[key]] of Python. *)
Definition index {A} (l : list A) (i : nat) : result A :=
  match l !! i with Some a => Ok a | None => Raise IndexError end.

Definition getitem (d : gmap string Q) (k : string) : result Q :=
  match d !! k with Some v => Ok v | None => Raise KeyError end.

(** ** The numpy operations the source uses *)

Module np.

(** [np.sum] of a list of scalars. *)
Definition sum (l : list Q) : Q := foldl Qplus 0 l.

(** [np.clip(a, 0, None)]. *)
Definition clip0 (a : list Q) : list Q := (λ x, Qmax x 0) <$> a.

(** [a @ b] for one-dimensional operands; the lengths must agree. *)
Definition dot (a b : list Q) : result Q :=
  if decide (length a = length b) then Ok (sum (zip_with Qmult a b))
  else Raise ValueError.

(** Elementwise sum of two rows of one length. *)
Definition add (a b : list Q) : result (list Q) :=
  if decide (length a = length b) then Ok (zip_with Qplus a b)
  else Raise ValueError.

(** [np.sum(rows, axis=0)]: rows are added from the first on. The sum of no
    rows is the scalar 0.0 in numpy; it is the empty row here, and every
    use of it in the source then reads [env.buildings[0]] of an empty
    list. *)
Definition sum_axis0 (rows : list (list Q)) : result (list Q) :=
  match rows with
  | [] => Ok []
  | r :: rs => foldl (λ acc row, a ← acc; add a row) (Ok r) rs
  end.

(** A float64 that need not be a rational any more: a division by zero
    gives inf, -inf or nan in numpy (with a warning, not an exception). *)
Inductive float : Type :=
| Fin (q : Q)
| NonFinite.

(** [x / c] of two scalars. *)
Definition true_divide (x c : Q) : float :=
  if Qeq_bool c 0 then NonFinite else Fin (x / c).

(** [np.zeros((n,1))]. *)
Definition zeros (n : nat) : list float := replicate n (Fin 0).

End np.

(** ** Post-episode data of the environment *)

Record Pricing := { electricity_pricing : list Q }.
Record CarbonIntensity := { carbon_intensity_series : list Q }.
Record Battery := { capacity_history : list Q }.
Record PV := { nominal_power : Q }.

Record Building := {
  net_electricity_consumption : list Q;
  pricing : Pricing;
  carbon_intensity : CarbonIntensity;
  electrical_storage : Battery;
  pv : PV
}.

Record EvalResults := {
  objective : Q;
  objective_contrs : list Q
}.

(** ** Objective aggregation (sys_eval.py, lines 137-161) *)

Section Objective.

Variable buildings : list Building.     (* env.buildings *)
Variable pricing_dict : gmap string Q.  (* lp.pricing_dict *)

Definition net_series : list (list Q) :=
  net_electricity_consumption <$> buildings.

(** [np.clip(np.sum([...],axis=0),0,None) @ series(env.buildings[0])] *)
Definition district_term (series : Building → list Q) : result Q :=
  s ← np.sum_axis0 net_series;
  b0 ← index buildings 0;
  np.dot (np.clip0 s) (series b0).

(** [np.sum([np.clip(net_elec,0,None) @ series(env.buildings[0]) for ...])] *)
Definition building_term (series : Building → list Q) : result Q :=
  terms ← mapM (λ net_elec, b0 ← index buildings 0;
                  np.dot (np.clip0 net_elec) (series b0)) net_series;
  Ok (np.sum terms).

Definition elec_series (b : Building) : list Q := electricity_pricing (pricing b).
Definition carbon_series (b : Building) : list Q :=
  carbon_intensity_series (carbon_intensity b).

Definition scale_by_carbon (term : result Q) : result Q :=
  c ← term; k ← getitem pricing_dict "carbon"; Ok (c * k).

(** The [if clip_level == ...] chain. *)
Definition operating_contributions (clip_level : string) : result (list Q) :=
  if String.eqb clip_level "d" then
    e ← district_term elec_series;
    c ← scale_by_carbon (district_term carbon_series);
    Ok ([] ++ [e] ++ [c])
  else if String.eqb clip_level "b" then
    e ← building_term elec_series;
    c ← scale_by_carbon (building_term carbon_series);
    Ok ([] ++ [e] ++ [c])
  else if String.eqb clip_level "m" then
    e ← building_term elec_series;
    c ← scale_by_carbon (district_term carbon_series);
    Ok ([] ++ [e] ++ [c])
  else Ok [].

(** The [if design:] block. *)
Definition design_contributions (opex_factor : Q) (contrs : list Q)
  : result (list Q) :=
  let contrs := (λ contr, contr * opex_factor) <$> contrs in
  caps ← mapM (λ b, index (capacity_history (electrical_storage b)) 0) buildings;
  kb ← getitem pricing_dict "battery";
  let contrs := contrs ++ [np.sum caps * kb] in
  ks ← getitem pricing_dict "solar";
  Ok (contrs ++ [np.sum ((λ b, nominal_power (pv b)) <$> buildings) * ks]).

Definition calculate_objective (opex_factor : Q) (clip_level : string)
    (design : bool) : result EvalResults :=
  contrs ← operating_contributions clip_level;
  contrs ← (if design then design_contributions opex_factor contrs else Ok contrs);
  Ok {| objective := np.sum contrs; objective_contrs := contrs |}.

End Objective.

(** ** Collaborators

    The file system is a finite map from path to file text. *)

Abbreviation FS := (gmap string string).

(** [citylearn.citylearn.CityLearnEnv]: the constructor reads the schema
    file, [step] returns [(observations, done)] (reward and info are
    discarded by the caller) and the new state of the mutable object. *)
Record Environment := {
  env_t : Type;
  CityLearnEnv : FS → string → result env_t;
  time_steps : env_t → Z;
  env_buildings : env_t → list Building;
  reset : env_t → result (list (list Q) * env_t);
  step : env_t → list np.float → result (list (list Q) * bool * env_t)
}.

(** [linmodel.LinProgModel]. [solve_LP] returns the matrix
    [results['battery_inflows'][0]], one row per building and one column
    per step of the window. *)
Record Planner (E : Environment) := {
  lp_t : Type;
  LinProgModel : env_t E → result lp_t;
  set_tau : lp_t → Z → lp_t;
  generate_LP : lp_t → string → gmap string Q → Q → result lp_t;
  lp_N : lp_t → nat;
  battery_capacities : lp_t → list Q;
  lp_pricing_dict : lp_t → gmap string Q;
  set_time_data_from_envs : lp_t → env_t E → Z → Z → list Q → result lp_t;
  set_LP_parameters : lp_t → result lp_t;
  solve_LP : lp_t → result (list (list Q) * lp_t)
}.
Arguments lp_t {E} _.
Arguments LinProgModel {E} _ _.
Arguments set_tau {E} _ _ _.
Arguments generate_LP {E} _ _ _ _ _.
Arguments lp_N {E} _ _.
Arguments battery_capacities {E} _ _.
Arguments lp_pricing_dict {E} _ _.
Arguments set_time_data_from_envs {E} _ _ _ _ _ _.
Arguments set_LP_parameters {E} _ _.
Arguments solve_LP {E} _ _.

(** ** State-of-charge derivation (lines 101-102 and 131) *)

Definition soc_obs_index : nat := 22.

(** [m[:,j]] of a two-dimensional array. *)
Definition column (m : list (list Q)) (j : nat) : result (list Q) :=
  mapM (λ row, index row j) m.

(** [np.array(rows)[:,j]] of a list of rows. The rows must make a matrix:
    no row at all gives a one-dimensional array, which has no second axis,
    and rows of different lengths are refused by [np.array]. *)
Definition column_of_rows (rows : list (list Q)) (j : nat) : result (list Q) :=
  match rows with
  | [] => Raise IndexError
  | r :: _ =>
      if forallb (λ row, Nat.eqb (length row) (length r)) rows
      then column rows j
      else Raise ValueError
  end.

(** [[charge*capacity for charge,capacity in zip(obs[:,22], capacities)]] *)
Definition get_socs (observations : list (list Q)) (capacities : list Q)
  : result (list Q) :=
  charges ← column_of_rows observations soc_obs_index;
  Ok (zip_with Qmult charges capacities).

(** ** The control loop (lines 94-133) *)

(** Calls made to the collaborators, in the order they happen. The log is
    not in the source; it records what the loop does to the planner and to
    the environment. *)
Inductive Event :=
| EvSolve (t_start tau : Z) (current_socs : list Q)
| EvStep (actions : list np.float).

Definition is_step (ev : Event) : bool :=
  match ev with EvStep _ => true | EvSolve _ _ _ => false end.
Definition is_solve (ev : Event) : bool :=
  match ev with EvSolve _ _ _ => true | EvStep _ => false end.

Section ControlLoop.

Context {E : Environment} {P : Planner E}.

Record LoopState := {
  env : env_t E;
  lp : lp_t P;
  observations : list (list Q);
  current_socs : list Q;
  num_steps : Z;
  done : bool;
  log : list Event
}.

Variable tau : Z.
Variable no_control : bool.

(** The condition of the [if] at line 113. *)
Definition plans (st : LoopState) : bool :=
  bool_decide (num_steps st ≤ (time_steps E (env st) - 1) - tau)%Z
  && bool_decide (no_control = false).

(** [x.reshape((n,1))] of a vector: the size must be [n]. *)
Definition reshape_column (n : nat) (x : list Q) : result (list Q) :=
  if decide (length x = n) then Ok x else Raise ValueError.

(** [x / capacities] of two columns, of shapes (n,1) and (m,1): entry by
    entry when n = m; a column of one entry is broadcast along the other;
    any other pair of sizes is refused. *)
Definition divide (x capacities : list Q) : result (list np.float) :=
  if decide (length x = length capacities)
  then Ok (zip_with np.true_divide x capacities)
  else match capacities, x with
       | [c], _ => Ok ((λ xi, np.true_divide xi c) <$> x)
       | _, [x0] => Ok (np.true_divide x0 <$> capacities)
       | _, _ => Raise ValueError
       end.

(** Lines 116-119. *)
Definition solve_for_action (st : LoopState)
  : result (list np.float * lp_t P) :=
  lp1 ← set_time_data_from_envs P (lp st) (env st) (num_steps st) tau (current_socs st);
  lp2 ← set_LP_parameters P lp1;
  '(inflows, lp3) ← solve_LP P lp2;
  first ← column inflows 0;
  first ← reshape_column (lp_N P lp3) first;
  actions ← divide first (battery_capacities P lp3);
  Ok (actions, lp3).

(** Lines 113-123: the action, the planner afterwards and the calls logged. *)
Definition compute_action (st : LoopState)
  : result (list np.float * lp_t P * list Event) :=
  if plans st then
    '(actions, lp') ← solve_for_action st;
    Ok (actions, lp', [EvSolve (num_steps st) tau (current_socs st)])
  else Ok (np.zeros (lp_N P (lp st)), lp st, []).

(** One pass through the body of [while not done]. *)
Definition loop_body (st : LoopState) : result LoopState :=
  '(actions, lp', evs) ← compute_action st;
  '(obs, d, env') ← step E (env st) actions;
  socs ← get_socs obs (battery_capacities P lp');
  Ok {| env := env'; lp := lp'; observations := obs; current_socs := socs;
        num_steps := (num_steps st + 1)%Z; done := d;
        log := log st ++ evs ++ [EvStep actions] |}.

(** [while not done: body]; [None] when the fuel runs out first. *)
Fixpoint control_loop (fuel : nat) (st : LoopState) : option (result LoopState) :=
  if done st then Some (Ok st)
  else match fuel with
       | O => None
       | S fuel' =>
           match loop_body st with
           | Ok st' => control_loop fuel' st'
           | Raise e => Some (Raise e)
           end
       end.

(** Lines 86-102: the state on entry to the loop. *)
Definition initialise (fs : FS) (schema_path : string)
    (pricing_dict : gmap string Q) (opex_factor : Q) (clip_level : string)
  : result LoopState :=
  env0 ← CityLearnEnv E fs schema_path;
  lp0 ← LinProgModel P env0;
  let lp0 := set_tau P lp0 tau in
  lp0 ← generate_LP P lp0 clip_level pricing_dict opex_factor;
  '(obs, env0) ← reset E env0;
  socs ← get_socs obs (battery_capacities P lp0);
  Ok {| env := env0; lp := lp0; observations := obs; current_socs := socs;
        num_steps := 0%Z; done := false; log := [] |}.

(** One iteration of the loop as a step relation between loop heads. *)
Definition loop_step (st st' : LoopState) : Prop :=
  done st = false ∧ loop_body st = Ok st'.

End ControlLoop.

Arguments LoopState : clear implicits.

(** ** evaluate_system *)

Section Evaluate.

Context {E : Environment} {P : Planner E}.

(** Everything up to the end of the loop. *)
Definition simulate (fuel : nat) (fs : FS) (schema_path : string)
    (pricing_dict : gmap string Q) (opex_factor : Q) (clip_level : string)
    (tau : Z) (no_control : bool) : option (result (LoopState E P)) :=
  match initialise tau fs schema_path pricing_dict opex_factor clip_level with
  | Ok st0 => control_loop tau no_control fuel st0
  | Raise e => Some (Raise e)
  end.

Definition evaluate_system (fuel : nat) (fs : FS) (schema_path : string)
    (pricing_dict : gmap string Q) (opex_factor : Q) (clip_level : string)
    (design : bool) (tau : Z) (no_control : bool)
  : option (result EvalResults) :=
  match simulate fuel fs schema_path pricing_dict opex_factor clip_level
          tau no_control with
  | None => None
  | Some (Raise e) => Some (Raise e)
  | Some (Ok st) =>
      Some (calculate_objective (env_buildings E (env st))
              (lp_pricing_dict P (lp st)) opex_factor clip_level design)
  end.

End Evaluate.

(** ** Paths ([os.path] on POSIX, [os.path.sep = '/']) *)

Module path.

Definition sep : ascii := "/"%char.

(** [s.split('/')]: the pieces between separators; never empty. *)
Fixpoint split (s : string) : list string :=
  match s with
  | EmptyString => [EmptyString]
  | String c s' =>
      if Ascii.eqb c sep then EmptyString :: split s'
      else match split s' with
           | piece :: pieces => String c piece :: pieces
           | [] => [String c EmptyString]
           end
  end.

(** ['/'.join(comps)] *)
Definition join (comps : list string) : string := String.concat "/" comps.

(** The loop of [posixpath.normpath] over the components. *)
Definition norm_step (initial_slashes : nat) (new_comps : list string)
    (comp : string) : list string :=
  if String.eqb comp "" || String.eqb comp "." then new_comps
  else if negb (String.eqb comp "..")
          || (Nat.eqb initial_slashes 0 && bool_decide (new_comps = []))
          || (negb (bool_decide (new_comps = []))
              && bool_decide (last new_comps = Some ".."%string))
       then new_comps ++ [comp]
       else removelast new_comps.

Definition initial_slashes (p : string) : nat :=
  if String.prefix "/" p then
    if String.prefix "//" p && negb (String.prefix "///" p) then 2 else 1
  else 0.

Definition normpath (p : string) : string :=
  if String.eqb p "" then "."%string
  else
    let n := initial_slashes p in
    let comps := foldl (norm_step n) [] (split p) in
    let p' := (string_of_list_ascii (replicate n sep) ++ join comps)%string in
    if String.eqb p' "" then "."%string else p'.

(** [os.path.normpath(p).split(os.path.sep)[-1]] *)
Definition last_component (p : string) : string :=
  default EmptyString (last (split (normpath p))).

End path.

(** [os.remove(p)] *)
Definition os_remove (fs : FS) (p : string) : result FS :=
  match fs !! p with
  | Some _ => Ok (delete p fs)
  | None => Raise FileNotFoundError
  end.

(** ** construct_and_evaluate_system (lines 18-49) *)

(** Values of the keyword dictionary handed to the schema builder. *)
Inductive kwarg :=
| KStr (s : string)
| KNums (l : list Q).

(** What the wrapper returns: [eval_results['objective']] or [eval_results]. *)
Inductive Returned :=
| Objective (x : Q)
| Full (r : EvalResults).

Section Wrapper.

Context {E : Environment} {P : Planner E}.

(** [schema_builder.build_schema], called with the keyword dictionary:
    writes the schema and returns
    its path. *)
Variable build_schema : gmap string kwarg → FS → result (string * FS).

(** What other workers do to the file system while this evaluation runs;
    the identity when there is none. *)
Variable meanwhile : FS → FS.

(** Lines 26-35. ['mproc_schema_temp_%s' % mproc_id] is taken on the text
    of the identifier. *)
Definition merged_kwargs (battery_capacities solar_capacities
    battery_efficiencies : list Q) (base_kwargs : gmap string kwarg)
    (mproc_id : option string) : gmap string kwarg :=
  let base_kwargs :=
    match mproc_id with
    | Some id => <["schema_name" := KStr ("mproc_schema_temp_" ++ id)]> base_kwargs
    | None => base_kwargs
    end in
  <["pv_power_capacities" := KNums solar_capacities]>
    (<["battery_efficiencies" := KNums battery_efficiencies]>
       (<["battery_energy_capacities" := KNums battery_capacities]> base_kwargs)).

(** Lines 43-44. *)
Definition cleanup (fs : FS) (schema_path : string) : result FS :=
  if negb (String.eqb (path.last_component schema_path) "schema.json")
  then os_remove fs schema_path
  else Ok fs.

(** The outcome and the file system left behind; [None] when the loop of
    [evaluate_system] runs out of fuel. [evaluate_system] is called with
    its defaults [clip_level='m'], [design=True], [tau=48]. *)
Definition construct_and_evaluate_system (fuel : nat)
    (battery_capacities solar_capacities battery_efficiencies : list Q)
    (base_kwargs : gmap string kwarg) (pricing_dict : gmap string Q)
    (opex_factor : Q) (mproc_id : option string) (return_contrs : bool)
    (no_control : bool) (fs : FS) : option (result Returned * FS) :=
  let kwargs := merged_kwargs battery_capacities solar_capacities
                  battery_efficiencies base_kwargs mproc_id in
  match build_schema kwargs fs with
  | Raise e => Some (Raise e, fs)
  | Ok (schema_path, fs) =>
      match evaluate_system (P:=P) fuel fs schema_path pricing_dict opex_factor
              "m" true 48 no_control with
      | None => None
      | Some eval_results =>
          let fs := meanwhile fs in
          match eval_results with
          | Raise e => Some (Raise e, fs)
          | Ok eval_results =>
              match cleanup fs schema_path with
              | Raise e => Some (Raise e, fs)
              | Ok fs =>
                  Some (Ok (if return_contrs then Full eval_results
                            else Objective (objective eval_results)), fs)
              end
          end
      end
  end.

End Wrapper.

(** ** The clip policies, timestep by timestep

    A second description of the two ways of monetising net consumption,
    written per timestep and per building as the design document words
    them, to compare with [district_term] and [building_term]. *)

Module Policy.

(** Export (negative net consumption) counts as zero. *)
Definition clip (x : Q) : Q := if Qle_bool 0 x then x else 0.

(** [f 0 + f 1 + ... + f (T-1)] *)
Fixpoint sum_over (T : nat) (f : nat → Q) : Q :=
  match T with
  | O => 0
  | S T' => sum_over T' f + f T'
  end.

(** The sum of [f] over the members of a list. *)
Fixpoint sum_of {A} (f : A → Q) (l : list A) : Q :=
  match l with
  | [] => 0
  | a :: l' => f a + sum_of f l'
  end.

Definition at_time (series : list Q) (t : nat) : Q := nth t series 0.

(** Building level: clip each building, price it, then add the buildings. *)
Definition building_level (T : nat) (nets : list (list Q)) (price : list Q) : Q :=
  sum_of (λ net, sum_over T (λ t, clip (at_time net t) * at_time price t)) nets.

(** District level: add the buildings at each timestep, clip, then price. *)
Definition district_level (T : nat) (nets : list (list Q)) (price : list Q) : Q :=
  sum_over T (λ t, clip (sum_of (λ net, at_time net t) nets) * at_time price t).

End Policy.

(** The series the aggregation combines have one length: every building's
    net consumption is as long as the series of the first building. *)
Definition aligned (series : Building → list Q) (bs : list Building) : bool :=
  match bs with
  | [] => false
  | b0 :: _ =>
      forallb (λ b, Nat.eqb (length (net_electricity_consumption b))
                            (length (series b0))) bs
  end.


(** The first series of the list, [env.buildings[0]]'s. *)
Definition shared (series : Building → list Q) (bs : list Building) : list Q :=
  match bs with
  | [] => []
  | b0 :: _ => series b0
  end.


(** ** Two buildings whose imports and exports cross *)

Definition building_of (net price carbon : list Q) : Building :=
  {| net_electricity_consumption := net;
     pricing := {| electricity_pricing := price |};
     carbon_intensity := {| carbon_intensity_series := carbon |};
     electrical_storage := {| capacity_history := [0] |};
     pv := {| nominal_power := 0 |} |}.

(** One timestep: one building draws 10, the other exports 4. *)
Definition crossing_once : list Building :=
  [building_of [10] [1] [1]; building_of [-4 # 1] [1] [1]].

(** Two timesteps: series (+10, -4) and (-4, +10). *)
Definition crossing_twice : list Building :=
  [building_of [10; -4 # 1] [1; 1] [1; 1];
   building_of [-4 # 1; 10] [1; 1] [1; 1]].

(** Two buildings that only import. *)
Definition importing_pair : list Building :=
  [building_of [3; 0] [1; 2] [1; 1 # 2];
   building_of [1; 2] [1; 2] [1; 1 # 2]].

(** [b.electrical_storage.capacity_history[0]] and [b.pv.nominal_power]. *)
Definition initial_capacity (b : Building) : option Q :=
  head (capacity_history (electrical_storage b)).
Definition solar_power (b : Building) : Q := nominal_power (pv b).

(** ** What the loop expects of its collaborators *)

(** An observation matrix: at least one row, rows of one length, and a
    state-of-charge column. *)
Definition wide (obs : list (list Q)) : Prop :=
  obs ≠ []
  ∧ ∃ width, (soc_obs_index < width)%nat
             ∧ Forall (λ row, length row = width) obs.

(** The start steps of the solves of a log, in order. *)
Definition solve_starts (l : list Event) : list Z :=
  omap (λ ev, match ev with EvSolve t _ _ => Some t | EvStep _ => None end) l.

Section Contracts.

Context {E : Environment} {P : Planner E}.

(** The planner is set up for [N] buildings. *)
Definition sized (N : nat) (l : lp_t P) : Prop :=
  lp_N P l = N ∧ length (battery_capacities P l) = N.

(** An environment with [N] buildings that counts its steps: [clock] is
    the number of steps taken since [reset], a step with one action per
    building succeeds, and [done] is raised by the step that brings the
    clock to [time_steps]. *)
Record counts_steps (N : nat) (clock : env_t E → Z) : Prop := {
  reset_clock : ∀ e obs e',
    reset E e = Ok (obs, e') →
    clock e' = 0%Z ∧ time_steps E e' = time_steps E e ∧ wide obs;
  step_accepts : ∀ e a,
    length a = N → ∃ obs d e', step E e a = Ok (obs, d, e');
  step_clock : ∀ e a obs d e',
    step E e a = Ok (obs, d, e') →
    clock e' = (clock e + 1)%Z
    ∧ time_steps E e' = time_steps E e
    ∧ d = bool_decide (clock e' = time_steps E e')
    ∧ wide obs
}.

(** A planner for [N] buildings that solves every window [t, t + tau) lying
    inside the simulation, and returns one row of inflows per building. *)
Definition solves_full_windows (N : nat) (tau : Z) : Prop :=
  ∀ l e t socs,
    sized N l → (0 ≤ t ≤ (time_steps E e - 1) - tau)%Z →
    ∃ l1 l2 inflows l3,
      set_time_data_from_envs P l e t tau socs = Ok l1
      ∧ set_LP_parameters P l1 = Ok l2
      ∧ solve_LP P l2 = Ok (inflows, l3)
      ∧ length inflows = N
      ∧ Forall (λ row, (0 < length row)%nat) inflows
      ∧ sized N l3.



End Contracts.

(** ** A small environment and planner to run the loop on *)

Module Toy.

(** Two buildings, three steps; the state is the clock. *)
Definition observation : list (list Q) :=
  [replicate 22 0 ++ [1 # 2]; replicate 22 0 ++ [1 # 4]].

Definition environment : Environment := {|
  env_t := Z;
  CityLearnEnv := λ fs schema_path,
    match fs !! schema_path with
    | Some _ => Ok 0%Z
    | None => Raise FileNotFoundError
    end;
  time_steps := λ _, 3%Z;
  env_buildings := λ _, crossing_twice;
  reset := λ _, Ok (observation, 0%Z);
  step := λ clock actions,
    if decide (length actions = 2%nat)
    then Ok (observation, bool_decide ((clock + 1)%Z = 3%Z), (clock + 1)%Z)
    else Raise EnvironmentError
|}.

(** The planner keeps the pricing dictionary it was given and always asks
    for the same inflows. *)
Definition planner : Planner environment := {|
  lp_t := gmap string Q;
  LinProgModel := λ _, Ok ∅;
  set_tau := λ l _, l;
  generate_LP := λ _ _ pricing_dict _, Ok pricing_dict;
  lp_N := λ _, 2%nat;
  battery_capacities := λ _, [4; 8];
  lp_pricing_dict := λ l, l;
  set_time_data_from_envs := λ l _ _ _ _, Ok l;
  set_LP_parameters := λ l, Ok l;
  solve_LP := λ l, Ok ([[2; 0]; [-2 # 1; 0]], l)
|}.

(** A planner whose solve always fails. *)
Definition failing_planner : Planner environment := {|
  lp_t := gmap string Q;
  LinProgModel := λ _, Ok ∅;
  set_tau := λ l _, l;
  generate_LP := λ _ _ pricing_dict _, Ok pricing_dict;
  lp_N := λ _, 2%nat;
  battery_capacities := λ _, [4; 8];
  lp_pricing_dict := λ l, l;
  set_time_data_from_envs := λ l _ _ _ _, Ok l;
  set_LP_parameters := λ l, Ok l;
  solve_LP := λ _, Raise PlannerError
|}.

Definition prices : gmap string Q :=
  {[ "carbon"%string := 1 # 2; "battery"%string := 1000; "solar"%string := 2000 ]}.

Definition schema_file : string := "data/mproc_schema_temp_7.json".

Definition files : FS := {[ schema_file := "{}"%string ]}.

End Toy.

(** ** File names *)

(** A plain file name: no separator in it, and not empty, [.] or [..]. *)
Fixpoint no_sep (s : string) : bool :=
  match s with
  | EmptyString => true
  | String c s' => negb (Ascii.eqb c path.sep) && no_sep s'
  end.

Definition plain_name (name : string) : bool :=
  no_sep name
  && negb (String.eqb name "") && negb (String.eqb name ".")
  && negb (String.eqb name "..").

(** ** A schema builder and a competing worker to run the wrapper on *)

Module ToyFiles.

(** Writes [data/<schema_name>.json], or [data/schema.json] when no name is
    asked for. *)
Definition build_schema (kwargs : gmap string kwarg) (fs : FS)
  : result (string * FS) :=
  let name := match kwargs !! "schema_name"%string with
              | Some (KStr name) => name
              | _ => "schema"%string
              end in
  let schema_path := ("data/" ++ name ++ ".json")%string in
  Ok (schema_path, <[schema_path := "{}"%string]> fs).

(** No other worker. *)
Definition alone (fs : FS) : FS := fs.

(** Another worker that was given the same identifier finishes first and
    removes the schema file. *)
Definition same_id_worker (fs : FS) : FS := delete Toy.schema_file fs.

End ToyFiles.

(** ** Further notions about the aggregation *)

(** No net consumption value of any building is above zero: the buildings
    only export or stand still. *)
Definition never_imports (bs : list Building) : Prop :=
  Forall (λ b, Forall (λ x, x <= 0) (net_electricity_consumption b)) bs.

(** Two buildings that differ at most in their tariff and carbon series. *)
Definition same_but_tariffs (b b' : Building) : Prop :=
  net_electricity_consumption b = net_electricity_consumption b'
  ∧ electrical_storage b = electrical_storage b'
  ∧ pv b = pv b'.

(** Whether the clip level is one the [if] chain knows. *)
Definition known_clip_level (clip_level : string) : bool :=
  String.eqb clip_level "d" || String.eqb clip_level "b"
  || String.eqb clip_level "m".

(** The number of entries of [objective_contrs]. *)
Definition entries (clip_level : string) (design : bool) : nat :=
  (if known_clip_level clip_level then 2 else 0)
  + (if design then 2 else 0).

(** ** An environment that never finishes *)

Module Endless.

(** As [Toy.environment], but no step ever returns [done]. *)
Definition environment : Environment := {|
  env_t := Z;
  CityLearnEnv := λ fs schema_path,
    match fs !! schema_path with
    | Some _ => Ok 0%Z
    | None => Raise FileNotFoundError
    end;
  time_steps := λ _, 3%Z;
  env_buildings := λ _, crossing_twice;
  reset := λ _, Ok (Toy.observation, 0%Z);
  step := λ clock actions,
    if decide (length actions = 2%nat)
    then Ok (Toy.observation, false, (clock + 1)%Z)
    else Raise EnvironmentError
|}.

Definition planner : Planner environment := {|
  lp_t := gmap string Q;
  LinProgModel := λ _, Ok ∅;
  set_tau := λ l _, l;
  generate_LP := λ _ _ pricing_dict _, Ok pricing_dict;
  lp_N := λ _, 2%nat;
  battery_capacities := λ _, [4; 8];
  lp_pricing_dict := λ l, l;
  set_time_data_from_envs := λ l _ _ _ _, Ok l;
  set_LP_parameters := λ l, Ok l;
  solve_LP := λ l, Ok ([[2; 0]; [-2 # 1; 0]], l)
|}.

End Endless.

(* ================================================================== *)
(** * Properties *)
(* ================================================================== *)

(** * Sums *)

Lemma foldl_Qplus_shift (l : list Q) (a : Q) :
  foldl Qplus a l == a + np.sum l.
Proof.
  unfold np.sum. revert a. induction l as [|x l IH]; intros a; simpl.
  - lra.
  - rewrite (IH (a + x)), (IH (0 + x)). lra.
Qed.

Lemma np_sum_cons (x : Q) (l : list Q) : np.sum (x :: l) == x + np.sum l.
Proof. unfold np.sum at 1. simpl. rewrite foldl_Qplus_shift. lra. Qed.

Lemma sum_over_ext (T : nat) (f g : nat → Q) :
  (∀ t, (t < T)%nat → f t == g t) → Policy.sum_over T f == Policy.sum_over T g.
Proof.
  induction T as [|T IH]; intros H; simpl; [reflexivity|].
  rewrite IH, (H T) by (intros; try apply H; lia). reflexivity.
Qed.

Lemma sum_of_ext {A} (f g : A → Q) (l : list A) :
  Forall (λ a, f a == g a) l → Policy.sum_of f l == Policy.sum_of g l.
Proof.
  induction 1 as [|a l Ha _ IH]; simpl; [reflexivity|]. rewrite Ha, IH. reflexivity.
Qed.

Lemma sum_over_plus (T : nat) (f g : nat → Q) :
  Policy.sum_over T (λ t, f t + g t) == Policy.sum_over T f + Policy.sum_over T g.
Proof. induction T as [|T IH]; simpl; [lra|]. rewrite IH. lra. Qed.

Lemma sum_over_zero (T : nat) : Policy.sum_over T (λ _, 0) == 0.
Proof. induction T as [|T IH]; simpl; [lra|]. rewrite IH. lra. Qed.

(** Sums over buildings and over time commute. *)
Lemma sum_over_sum_of {A} (T : nat) (f : A → nat → Q) (l : list A) :
  Policy.sum_over T (λ t, Policy.sum_of (λ a, f a t) l)
  == Policy.sum_of (λ a, Policy.sum_over T (f a)) l.
Proof.
  induction l as [|a l IH]; simpl.
  - apply sum_over_zero.
  - rewrite sum_over_plus, IH. reflexivity.
Qed.

Lemma sum_over_le (T : nat) (f g : nat → Q) :
  (∀ t, (t < T)%nat → f t <= g t) → Policy.sum_over T f <= Policy.sum_over T g.
Proof.
  induction T as [|T IH]; intros H; simpl; [lra|].
  specialize (H T ltac:(lia)) as HT. 
  assert (Policy.sum_over T f <= Policy.sum_over T g) by (apply IH; intros; apply H; lia).
  lra.
Qed.

(** [np.sum] of a list of length [T], index by index. *)
Lemma np_sum_sum_over (l : list Q) :
  np.sum l == Policy.sum_over (length l) (Policy.at_time l).
Proof.
  induction l as [|x l IH] using rev_ind; [reflexivity|].
  rewrite length_app, Nat.add_1_r. simpl.
  unfold np.sum. rewrite foldl_app. simpl. fold (np.sum l). rewrite IH.
  unfold Policy.at_time. rewrite app_nth2, Nat.sub_diag by lia. simpl.
  apply Qplus_comp; [|reflexivity].
  apply sum_over_ext. intros t Ht. rewrite app_nth1 by lia. reflexivity.
Qed.

(** * Clipping *)

Lemma Qmax_clip (x : Q) : Qmax x 0 == Policy.clip x.
Proof.
  unfold Policy.clip. destruct (Qle_bool 0 x) eqn:H.
  - apply Qle_bool_iff in H. apply Q.max_l. exact H.
  - assert (¬ 0 <= x) by (rewrite <- Qle_bool_iff; congruence).
    apply Q.max_r. lra.
Qed.

Lemma clip_nonneg (x : Q) : 0 <= Policy.clip x.
Proof.
  unfold Policy.clip. destruct (Qle_bool 0 x) eqn:H; [|lra].
  by apply Qle_bool_iff.
Qed.


Lemma clip_ge (x : Q) : x <= Policy.clip x.
Proof.
  unfold Policy.clip. destruct (Qle_bool 0 x) eqn:H; [lra|].
  assert (¬ 0 <= x) by (rewrite <- Qle_bool_iff; congruence). lra.
Qed.

Lemma clip_mono (x y : Q) : x <= y → Policy.clip x <= Policy.clip y.
Proof.
  intros Hxy. unfold Policy.clip.
  destruct (Qle_bool 0 x) eqn:Hx, (Qle_bool 0 y) eqn:Hy;
    try apply Qle_bool_iff in Hx; try apply Qle_bool_iff in Hy; try lra.
  assert (¬ 0 <= y) by (rewrite <- Qle_bool_iff; congruence). lra.
Qed.

#[global] Instance clip_proper : Proper (Qeq ==> Qeq) Policy.clip.
Proof.
  intros x y Hxy. apply Qle_antisym; apply clip_mono; lra.
Qed.

(** Clip of a sum against the sum of the clips. *)
Lemma clip_sum_of_le {A} (f : A → Q) (l : list A) :
  Policy.clip (Policy.sum_of f l) <= Policy.sum_of (λ a, Policy.clip (f a)) l.
Proof.
  induction l as [|a l IH]; simpl.
  - unfold Policy.clip. simpl. lra.
  - pose proof (clip_ge (f a)). pose proof (clip_nonneg (f a)).
    pose proof (clip_nonneg (Policy.sum_of f l)).
    pose proof (clip_ge (Policy.sum_of f l)).
    unfold Policy.clip at 1.
    destruct (Qle_bool 0 (f a + Policy.sum_of f l)); lra.
Qed.


Lemma at_time_clip0 (a : list Q) (t : nat) :
  Policy.at_time (np.clip0 a) t == Policy.clip (Policy.at_time a t).
Proof.
  unfold Policy.at_time, np.clip0. revert t.
  induction a as [|x a IH]; intros [|t]; simpl; try reflexivity.
  - apply Qmax_clip.
  - apply IH.
Qed.

Lemma at_time_zip_mult (a b : list Q) (t : nat) :
  length a = length b →
  Policy.at_time (zip_with Qmult a b) t == Policy.at_time a t * Policy.at_time b t.
Proof.
  unfold Policy.at_time. revert b t.
  induction a as [|x a IH]; intros [|y b] [|t] Hlen; simpl in *; try lra; try lia.
  apply IH. lia.
Qed.

Lemma at_time_zip_plus (a b : list Q) (t : nat) :
  length a = length b →
  Policy.at_time (zip_with Qplus a b) t == Policy.at_time a t + Policy.at_time b t.
Proof.
  unfold Policy.at_time. revert b t.
  induction a as [|x a IH]; intros [|y b] [|t] Hlen; simpl in *; try lra; try lia.
  apply IH. lia.
Qed.

Lemma at_time_nonneg (a : list Q) (t : nat) :
  Forall (λ x, 0 <= x) a → 0 <= Policy.at_time a t.
Proof.
  unfold Policy.at_time. intros H. revert t.
  induction H as [|x a Hx _ IH]; intros [|t]; simpl; try lra. apply IH.
Qed.

(** * The dot product *)

Lemma dot_ok (a b : list Q) :
  length a = length b →
  ∃ d, np.dot a b = Ok d
       ∧ d == Policy.sum_over (length b) (λ t, Policy.at_time a t * Policy.at_time b t).
Proof.
  intros Hlen. unfold np.dot. rewrite decide_True by done.
  eexists; split; [reflexivity|].
  rewrite np_sum_sum_over, length_zip_with, Hlen, Nat.min_id.
  apply sum_over_ext. intros t _. by apply at_time_zip_mult.
Qed.

Lemma length_clip0 (a : list Q) : length (np.clip0 a) = length a.
Proof. unfold np.clip0. apply length_fmap. Qed.

(** * Column sums *)

Lemma foldl_add_ok (rs : list (list Q)) (a : list Q) :
  Forall (λ r, length r = length a) rs →
  ∃ s, foldl (λ acc row, x ← acc; np.add x row) (Ok a) rs = Ok s
       ∧ length s = length a
       ∧ ∀ t, Policy.at_time s t
              == Policy.at_time a t + Policy.sum_of (λ r, Policy.at_time r t) rs.
Proof.
  revert a. induction rs as [|r rs IH]; intros a Hall.
  - exists a. repeat split; simpl. intros; lra.
  - inversion Hall as [|? ? Hr Hrs]; subst. simpl.
    unfold np.add at 2. rewrite decide_True by done.
    destruct (IH (zip_with Qplus a r)) as (s & Hs & Hlen & Hat).
    { rewrite length_zip_with, Hr, Nat.min_id.
      eapply Forall_impl; [exact Hrs|]. simpl. intros; lia. }
    exists s. split; [exact Hs|]. split.
    { rewrite Hlen, length_zip_with. lia. }
    intros t. rewrite Hat, at_time_zip_plus by done. lra.
Qed.

Lemma sum_axis0_ok (r : list Q) (rs : list (list Q)) (T : nat) :
  Forall (λ r, length r = T) (r :: rs) →
  ∃ s, np.sum_axis0 (r :: rs) = Ok s
       ∧ length s = T
       ∧ ∀ t, Policy.at_time s t == Policy.sum_of (λ r, Policy.at_time r t) (r :: rs).
Proof.
  intros Hall. inversion Hall as [|? ? Hr Hrs]; subst.
  destruct (foldl_add_ok rs r) as (s & Hs & Hlen & Hat); [done|].
  exists s. repeat split; done.
Qed.

(** * The two terms of the aggregation against the policies *)

Lemma aligned_inv (series : Building → list Q) (bs : list Building) :
  aligned series bs = true →
  ∃ b0 rest, bs = b0 :: rest
    ∧ Forall (λ b, length (net_electricity_consumption b) = length (series b0)) bs.
Proof.
  destruct bs as [|b0 rest]; [discriminate|]. intros H.
  exists b0, rest. split; [done|].
  unfold aligned in H. rewrite forallb_forall in H.
  apply Forall_forall. intros b Hb. apply Nat.eqb_eq, H.
  by apply list_elem_of_In.
Qed.

Lemma mapM_result_Forall2 {A B} (f : A → result B) (l : list A) (k : list B) :
  Forall2 (λ a b, f a = Ok b) l k → mapM f l = Ok k.
Proof.
  induction 1 as [|a b l k Ha _ IH]; [reflexivity|].
  simpl. rewrite Ha. simpl. rewrite IH. reflexivity.
Qed.

Lemma district_term_ok (series : Building → list Q) (bs : list Building) :
  aligned series bs = true →
  ∃ c, district_term bs series = Ok c
       ∧ c == Policy.district_level (length (shared series bs))
                (net_series bs) (shared series bs).
Proof.
  intros (b0 & rest & -> & Hall)%aligned_inv. simpl shared.
  destruct (sum_axis0_ok (net_electricity_consumption b0)
              (net_electricity_consumption <$> rest) (length (series b0)))
    as (s & Hs & Hlen & Hat).
  { rewrite <- fmap_cons. by apply Forall_fmap. }
  destruct (dot_ok (np.clip0 s) (series b0)) as (c & Hc & Hceq).
  { by rewrite length_clip0. }
  exists c. split.
  - unfold district_term, net_series. rewrite fmap_cons, Hs. exact Hc.
  - rewrite Hceq. unfold Policy.district_level, net_series. rewrite fmap_cons.
    apply sum_over_ext. intros t _.
    rewrite at_time_clip0, Hat. reflexivity.
Qed.

Lemma priced_rows_ok (bs : list Building) (b0 : Building)
    (series : Building → list Q) (nets : list (list Q)) :
  index bs 0 = Ok b0 →
  Forall (λ net, length net = length (series b0)) nets →
  ∃ terms,
    mapM (λ net_elec, b ← index bs 0; np.dot (np.clip0 net_elec) (series b)) nets
    = Ok terms
    ∧ np.sum terms == Policy.building_level (length (series b0)) nets (series b0).
Proof.
  intros Hb0. induction 1 as [|net nets Hnet _ (terms & Ht & Hs)].
  - exists []. split; reflexivity.
  - destruct (dot_ok (np.clip0 net) (series b0)) as (d & Hd & Hdeq);
      [by rewrite length_clip0|].
    exists (d :: terms). split.
    + cbn [mapM]. rewrite Hb0 in Ht |- *. cbn [mbind result_bind] in Ht |- *.
      rewrite Hd. cbn [mbind result_bind]. rewrite Ht. reflexivity.
    + rewrite np_sum_cons, Hs, Hdeq. unfold Policy.building_level. simpl.
      apply Qplus_comp; [|reflexivity].
      apply sum_over_ext. intros t _. rewrite at_time_clip0. reflexivity.
Qed.

Lemma building_term_ok (series : Building → list Q) (bs : list Building) :
  aligned series bs = true →
  ∃ e, building_term bs series = Ok e
       ∧ e == Policy.building_level (length (shared series bs))
                (net_series bs) (shared series bs).
Proof.
  intros (b0 & rest & -> & Hall)%aligned_inv. simpl shared.
  destruct (priced_rows_ok (b0 :: rest) b0 series (net_series (b0 :: rest)))
    as (terms & Hterms & Hsum); [done|by apply Forall_fmap|].
  exists (np.sum terms). split; [|done].
  unfold building_term. rewrite Hterms. reflexivity.
Qed.

(** * The operating-cost contributions *)

Lemma getitem_ok (d : gmap string Q) (key : string) (v : Q) :
  d !! key = Some v → getitem d key = Ok v.
Proof. intros H. unfold getitem. by rewrite H. Qed.

Lemma operating_d (bs : list Building) (dict : gmap string Q) (e c k : Q) :
  district_term bs elec_series = Ok e →
  district_term bs carbon_series = Ok c →
  dict !! "carbon"%string = Some k →
  operating_contributions bs dict "d" = Ok [e; c * k].
Proof.
  intros He Hc Hk. unfold operating_contributions, scale_by_carbon. simpl.
  rewrite He, Hc. simpl. by rewrite (getitem_ok _ _ _ Hk).
Qed.

Lemma operating_b (bs : list Building) (dict : gmap string Q) (e c k : Q) :
  building_term bs elec_series = Ok e →
  building_term bs carbon_series = Ok c →
  dict !! "carbon"%string = Some k →
  operating_contributions bs dict "b" = Ok [e; c * k].
Proof.
  intros He Hc Hk. unfold operating_contributions, scale_by_carbon. simpl.
  rewrite He, Hc. simpl. by rewrite (getitem_ok _ _ _ Hk).
Qed.

Lemma operating_m (bs : list Building) (dict : gmap string Q) (e c k : Q) :
  building_term bs elec_series = Ok e →
  district_term bs carbon_series = Ok c →
  dict !! "carbon"%string = Some k →
  operating_contributions bs dict "m" = Ok [e; c * k].
Proof.
  intros He Hc Hk. unfold operating_contributions, scale_by_carbon. simpl.
  rewrite He, Hc. simpl. by rewrite (getitem_ok _ _ _ Hk).
Qed.

(** C2: with clip level 'm' the electricity contribution is the
    building-level cost (each building clipped at zero, priced timestep by
    timestep, then added over the buildings) and the carbon contribution is
    the district-level cost (the buildings added at each timestep, the sum
    clipped at zero and priced with the carbon intensity) times
    [pricing_dict['carbon']]. *)
Theorem mixed_policy_contributions (bs : list Building) (dict : gmap string Q)
    (opex_factor k : Q) :
  aligned elec_series bs = true →
  aligned carbon_series bs = true →
  dict !! "carbon"%string = Some k →
  ∃ e c,
    calculate_objective bs dict opex_factor "m" false
    = Ok {| objective := np.sum [e; c]; objective_contrs := [e; c] |}
    ∧ e == Policy.building_level (length (shared elec_series bs))
             (net_series bs) (shared elec_series bs)
    ∧ c == Policy.district_level (length (shared carbon_series bs))
             (net_series bs) (shared carbon_series bs) * k.
Proof.
  intros Hel Hca Hk.
  destruct (building_term_ok _ _ Hel) as (e & He & Heq).
  destruct (district_term_ok _ _ Hca) as (c & Hc & Hceq).
  exists e, (c * k). split; [|split].
  - unfold calculate_objective. by rewrite (operating_m _ _ _ _ _ He Hc Hk).
  - exact Heq.
  - by rewrite Hceq.
Qed.

Lemma mixed_policy_contributions_witness :
  ∃ e c,
    calculate_objective crossing_twice {[ "carbon"%string := 1 # 2 ]} 10 "m" false
    = Ok {| objective := np.sum [e; c]; objective_contrs := [e; c] |}
    ∧ e == Policy.building_level (length (shared elec_series crossing_twice))
             (net_series crossing_twice) (shared elec_series crossing_twice)
    ∧ c == Policy.district_level (length (shared carbon_series crossing_twice))
             (net_series crossing_twice) (shared carbon_series crossing_twice)
           * (1 # 2).
Proof.
  apply (mixed_policy_contributions crossing_twice _ 10 (1 # 2));
    reflexivity.
Defined.

(** * District level against building level *)

Lemma sum_of_scale {A} (f : A → Q) (p : Q) (l : list A) :
  Policy.sum_of f l * p == Policy.sum_of (λ a, f a * p) l.
Proof. induction l as [|a l IH]; simpl; [lra|]. rewrite <- IH. lra. Qed.

(** The building-level cost with the sum over time outermost. *)
Lemma building_level_by_time (T : nat) (nets : list (list Q)) (price : list Q) :
  Policy.building_level T nets price
  == Policy.sum_over T (λ t,
       Policy.sum_of (λ net, Policy.clip (Policy.at_time net t)) nets
       * Policy.at_time price t).
Proof.
  unfold Policy.building_level.
  rewrite <- (sum_over_sum_of T
    (λ net t, Policy.clip (Policy.at_time net t) * Policy.at_time price t)).
  apply sum_over_ext. intros t _. by rewrite sum_of_scale.
Qed.

Lemma district_le_building (T : nat) (nets : list (list Q)) (price : list Q) :
  Forall (λ p, 0 <= p) price →
  Policy.district_level T nets price <= Policy.building_level T nets price.
Proof.
  intros Hp. rewrite building_level_by_time. unfold Policy.district_level.
  apply sum_over_le. intros t _.
  apply Qmult_le_compat_r; [apply clip_sum_of_le|by apply at_time_nonneg].
Qed.




(** * The design block *)

(** The capital-cost entries do not depend on the operating-cost entries:
    the block either raises whatever they are, or appends the same two. *)
Lemma design_contributions_cases (bs : list Building) (dict : gmap string Q)
    (opex_factor : Q) :
  (∃ e, ∀ contrs, design_contributions bs dict opex_factor contrs = Raise e)
  ∨ (∃ caps kb ks,
       mapM (λ b, index (capacity_history (electrical_storage b)) 0) bs = Ok caps
       ∧ dict !! "battery"%string = Some kb
       ∧ dict !! "solar"%string = Some ks
       ∧ ∀ contrs,
           design_contributions bs dict opex_factor contrs
           = Ok (((λ contr, contr * opex_factor) <$> contrs)
                 ++ [np.sum caps * kb;
                     np.sum ((λ b, nominal_power (pv b)) <$> bs) * ks])).
Proof.
  unfold design_contributions, getitem.
  destruct (mapM _ bs) as [caps|e]; [|left; by exists e].
  destruct (dict !! "battery"%string) as [kb|]; [|left; by exists KeyError].
  destruct (dict !! "solar"%string) as [ks|]; [|left; by exists KeyError].
  right. exists caps, kb, ks. repeat split; try done.
  intros contrs. simpl. by rewrite <- app_assoc.
Qed.





(** C4: for two buildings whose consumption is +10 and -4 (and, a timestep
    later, -4 and +10) under a uniform price 1 and carbon intensity 1, the
    district level prices 6 per timestep and the building level 10, so 'd'
    gives a strictly smaller electricity contribution than 'b'; and
    whatever the series, under prices that are not negative the district
    term never exceeds the building term. *)
Theorem district_below_building :
  (district_term crossing_once elec_series = Ok 6
   ∧ building_term crossing_once elec_series = Ok 10
   ∧ ∀ dict k, dict !! "carbon"%string = Some k →
       ∃ cd cb,
         operating_contributions crossing_once dict "d" = Ok [6; cd]
         ∧ operating_contributions crossing_once dict "b" = Ok [10; cb]
         ∧ 6 < 10)
  ∧ (district_term crossing_twice elec_series = Ok 12
     ∧ building_term crossing_twice elec_series = Ok 20
     ∧ ∀ dict k, dict !! "carbon"%string = Some k →
         ∃ cd cb,
           operating_contributions crossing_twice dict "d" = Ok [12; cd]
           ∧ operating_contributions crossing_twice dict "b" = Ok [20; cb]
           ∧ 12 < 20)
  ∧ ∀ (bs : list Building) (series : Building → list Q),
      aligned series bs = true →
      Forall (λ p, 0 <= p) (shared series bs) →
      ∃ d b, district_term bs series = Ok d
             ∧ building_term bs series = Ok b
             ∧ d <= b.
Proof.
  split; [|split].
  - split; [reflexivity|]. split; [reflexivity|].
    intros dict k Hk. eexists _, _.
    split; [by apply (operating_d _ _ 6 6 k)|].
    split; [by apply (operating_b _ _ 10 10 k)|reflexivity].
  - split; [reflexivity|]. split; [reflexivity|].
    intros dict k Hk. eexists _, _.
    split; [by apply (operating_d _ _ 12 12 k)|].
    split; [by apply (operating_b _ _ 20 20 k)|reflexivity].
  - intros bs series Hal Hp.
    destruct (district_term_ok _ _ Hal) as (d & Hd & Hdeq).
    destruct (building_term_ok _ _ Hal) as (b & Hb & Hbeq).
    exists d, b. split; [done|]. split; [done|].
    rewrite Hdeq, Hbeq. by apply district_le_building.
Qed.

Lemma district_below_building_witness :
  ∃ d b, district_term importing_pair elec_series = Ok d
         ∧ building_term importing_pair elec_series = Ok b
         ∧ d <= b.
Proof.
  apply (proj2 (proj2 district_below_building) importing_pair elec_series);
    [reflexivity|].
  repeat constructor; unfold Qle; simpl; lia.
Defined.

(** * Capital costs *)

Lemma np_sum_nonneg (l : list Q) : Forall (λ x, 0 <= x) l → 0 <= np.sum l.
Proof.
  induction 1 as [|x l Hx _ IH]; [unfold np.sum; simpl; lra|].
  rewrite np_sum_cons. lra.
Qed.

Lemma index_head {A} (l : list A) (a : A) : head l = Some a → index l 0 = Ok a.
Proof. destruct l; [discriminate|]. intros [= ->]. reflexivity. Qed.

Lemma initial_capacities_ok (bs : list Building) (caps : list Q) :
  Forall2 (λ b c, initial_capacity b = Some c) bs caps →
  mapM (λ b, index (capacity_history (electrical_storage b)) 0) bs = Ok caps.
Proof.
  intros H. apply mapM_result_Forall2.
  eapply Forall2_impl; [exact H|]. simpl. intros b c. apply index_head.
Qed.

Lemma design_contributions_ok (bs : list Building) (dict : gmap string Q)
    (opex_factor kb ks : Q) (caps contrs : list Q) :
  Forall2 (λ b c, initial_capacity b = Some c) bs caps →
  dict !! "battery"%string = Some kb →
  dict !! "solar"%string = Some ks →
  design_contributions bs dict opex_factor contrs
  = Ok (((λ contr, contr * opex_factor) <$> contrs)
        ++ [np.sum caps * kb; np.sum (solar_power <$> bs) * ks]).
Proof.
  intros Hcaps Hkb Hks. unfold design_contributions.
  rewrite (initial_capacities_ok _ _ Hcaps). simpl.
  rewrite (getitem_ok _ _ _ Hkb), (getitem_ok _ _ _ Hks). simpl.
  by rewrite <- app_assoc.
Qed.

(** C5: with [design=false] the contributions are the operating-cost
    entries alone, not scaled; with [design=true] and opex factor [k] every
    operating-cost entry is [k] times its [design=false] value and two
    entries follow at the end, neither scaled by [k]: the battery capital
    cost (the sum over the buildings of the first value of the capacity
    history, times [pricing_dict['battery']]) and the solar capital cost
    (the sum of the nominal powers, times [pricing_dict['solar']]); both
    are at least zero when capacities, powers and prices are. *)
Theorem design_flag_contributions (bs : list Building) (dict : gmap string Q)
    (clip_level : string) (ops : list Q) :
  operating_contributions bs dict clip_level = Ok ops →
  (∀ opex_factor,
     calculate_objective bs dict opex_factor clip_level false
     = Ok {| objective := np.sum ops; objective_contrs := ops |})
  ∧ ∀ (k kb ks : Q) (caps : list Q),
      Forall2 (λ b c, initial_capacity b = Some c) bs caps →
      dict !! "battery"%string = Some kb →
      dict !! "solar"%string = Some ks →
      ∃ r,
        calculate_objective bs dict k clip_level true = Ok r
        ∧ objective_contrs r
          = ((λ contr, contr * k) <$> ops)
            ++ [np.sum caps * kb; np.sum (solar_power <$> bs) * ks]
        ∧ length (objective_contrs r) = (length ops + 2)%nat
        ∧ objective r = np.sum (objective_contrs r)
        ∧ (Forall (λ c, 0 <= c) caps →
           Forall (λ b, 0 <= solar_power b) bs →
           0 <= kb → 0 <= ks →
           0 <= np.sum caps * kb ∧ 0 <= np.sum (solar_power <$> bs) * ks).
Proof.
  intros Hops. split.
  - intros opex_factor. unfold calculate_objective. by rewrite Hops.
  - intros k kb ks caps Hcaps Hkb Hks.
    eexists. split.
    { unfold calculate_objective. rewrite Hops. simpl.
      rewrite (design_contributions_ok _ _ _ _ _ _ _ Hcaps Hkb Hks). reflexivity. }
    simpl. split; [done|]. split.
    { rewrite length_app, length_fmap. simpl. lia. }
    split; [done|].
    intros Hc Hs Hb Hso. split.
    + apply Qmult_le_0_compat; [by apply np_sum_nonneg|done].
    + apply Qmult_le_0_compat; [|done].
      apply np_sum_nonneg. by apply Forall_fmap.
Qed.

Lemma design_flag_contributions_witness :
  calculate_objective crossing_twice
    {[ "carbon"%string := 1 # 2; "battery"%string := 1000; "solar"%string := 2000 ]}
    10 "m" false
  = Ok {| objective := np.sum [20; 12 * (1 # 2)];
          objective_contrs := [20; 12 * (1 # 2)] |}
  ∧ ∃ r,
      calculate_objective crossing_twice
        {[ "carbon"%string := 1 # 2; "battery"%string := 1000;
           "solar"%string := 2000 ]} 10 "m" true = Ok r
      ∧ objective_contrs r
        = [20 * 10; 12 * (1 # 2) * 10; np.sum [0; 0] * 1000;
           np.sum (solar_power <$> crossing_twice) * 2000].
Proof.
  destruct (design_flag_contributions crossing_twice
    {[ "carbon"%string := 1 # 2; "battery"%string := 1000; "solar"%string := 2000 ]}
    "m" [20; 12 * (1 # 2)]) as [Hfalse Htrue].
  { apply (operating_m _ _ 20 12 (1 # 2)); reflexivity. }
  split; [apply Hfalse|].
  destruct (Htrue 10 1000 2000 [0; 0]) as (r & Hr & Hcontrs & _).
  { repeat constructor. }
  { reflexivity. }
  { reflexivity. }
  exists r. split; [exact Hr|exact Hcontrs].
Defined.

(** * The control loop *)

Lemma index_ok {A} (l : list A) (i : nat) (x : A) :
  l !! i = Some x → index l i = Ok x.
Proof. intros H. unfold index. by rewrite H. Qed.

Lemma column_ok (m : list (list Q)) (j : nat) :
  Forall (λ row, (j < length row)%nat) m →
  ∃ c, column m j = Ok c ∧ length c = length m.
Proof.
  unfold column. induction 1 as [|row m Hrow _ (c & Hc & Hlen)].
  - by exists [].
  - destruct (lookup_lt_is_Some_2 row j Hrow) as [x Hx].
    exists (x :: c). split; [|simpl; by rewrite Hlen].
    cbn [mapM]. rewrite (index_ok _ _ _ Hx). cbn [mbind result_bind].
    by rewrite Hc.
Qed.

Lemma column_of_rows_ok (rows : list (list Q)) (j width : nat) :
  rows ≠ [] → Forall (λ row, length row = width) rows → (j < width)%nat →
  ∃ c, column_of_rows rows j = Ok c ∧ length c = length rows.
Proof.
  intros Hne Hall Hj. destruct rows as [|r rows]; [done|].
  unfold column_of_rows.
  assert (forallb (λ row, Nat.eqb (length row) (length r)) (r :: rows) = true)
    as ->.
  { apply forallb_forall. intros row Hrow. apply Nat.eqb_eq.
    rewrite Forall_forall in Hall.
    rewrite (Hall row), (Hall r); [done|by left|by apply list_elem_of_In]. }
  apply column_ok. eapply Forall_impl; [exact Hall|]. simpl. intros; lia.
Qed.

Lemma column_of_rows_inv (rows : list (list Q)) (j : nat) (c : list Q) :
  column_of_rows rows j = Ok c → column rows j = Ok c.
Proof.
  unfold column_of_rows. destruct rows as [|r rows]; [discriminate|].
  by destruct (forallb _ _).
Qed.

Lemma get_socs_ok (obs : list (list Q)) (caps : list Q) :
  wide obs → ∃ socs, get_socs obs caps = Ok socs.
Proof.
  intros (Hne & width & Hj & Hall).
  destruct (column_of_rows_ok obs soc_obs_index width Hne Hall Hj) as (c & Hc & _).
  unfold get_socs. rewrite Hc. by eexists.
Qed.

Section LoopFacts.

Context {E : Environment} {P : Planner E}.
Variables (tau : Z) (no_control : bool).

Abbreviation State := (LoopState E P).

(** What a pass through the body does to the log, read off the code. *)
Lemma loop_body_log (st st' : State) :
  loop_body tau no_control st = Ok st' →
  ∃ actions,
    log st' = log st
              ++ (if plans tau no_control st
                  then [EvSolve (num_steps st) tau (current_socs st)] else [])
              ++ [EvStep actions]
    ∧ num_steps st' = (num_steps st + 1)%Z
    ∧ (plans tau no_control st = false →
       actions = np.zeros (lp_N P (lp st)) ∧ lp st' = lp st).
Proof.
  unfold loop_body, compute_action. intros H.
  destruct (plans tau no_control st).
  - destruct (solve_for_action tau st) as [[actions l']|]; [|discriminate].
    simpl in H. destruct (step E (env st) actions) as [[[obs d] e']|]; [|discriminate].
    simpl in H. destruct (get_socs obs _) as [socs|]; [|discriminate].
    simplify_eq/=. exists actions. done.
  - simpl in H.
    destruct (step E (env st) _) as [[[obs d] e']|]; [|discriminate].
    simpl in H. destruct (get_socs obs _) as [socs|]; [|discriminate].
    simplify_eq/=. eexists. done.
Qed.

(** The state of charge after a pass is derived from the observations the
    step returned. *)
Lemma loop_body_socs (st st' : State) :
  loop_body tau no_control st = Ok st' →
  (∃ actions d, step E (env st) actions = Ok (observations st', d, env st'))
  ∧ get_socs (observations st') (battery_capacities P (lp st'))
    = Ok (current_socs st').
Proof.
  unfold loop_body. intros H.
  destruct (compute_action tau no_control st) as [[[actions l'] evs]|];
    [|discriminate].
  simpl in H. destruct (step E (env st) actions) as [[[obs d] e']|] eqn:Hstep;
    [|discriminate].
  simpl in H. destruct (get_socs obs _) as [socs|] eqn:Hsocs; [|discriminate].
  simplify_eq/=. split; [by exists actions, d|done].
Qed.

(** A failed solve ends the pass: nothing is stepped. *)
Lemma loop_body_solve_fails (st : State) (e : exn) :
  plans tau no_control st = true →
  solve_for_action tau st = Raise e →
  loop_body tau no_control st = Raise e.
Proof.
  intros Hp Hs. unfold loop_body, compute_action. by rewrite Hp, Hs.
Qed.

Lemma control_loop_done (fuel : nat) (st : State) :
  done st = true → control_loop tau no_control fuel st = Some (Ok st).
Proof. intros H. destruct fuel; simpl; by rewrite H. Qed.

Lemma control_loop_unfold (fuel : nat) (st : State) :
  done st = false →
  control_loop tau no_control (S fuel) st
  = match loop_body tau no_control st with
    | Ok st' => control_loop tau no_control fuel st'
    | Raise e => Some (Raise e)
    end.
Proof. intros H. simpl. by rewrite H. Qed.

(** A finished loop went through loop heads only. *)
Lemma control_loop_reaches (fuel : nat) (st st' : State) :
  control_loop tau no_control fuel st = Some (Ok st') →
  rtc (loop_step tau no_control) st st' ∧ done st' = true.
Proof.
  revert st. induction fuel as [|fuel IH]; intros st H.
  - simpl in H. destruct (done st) eqn:Hd; [|discriminate].
    simplify_eq. split; [reflexivity|done].
  - destruct (done st) eqn:Hd.
    + rewrite control_loop_done in H by done. simplify_eq. split; [reflexivity|done].
    + rewrite control_loop_unfold in H by done.
      destruct (loop_body tau no_control st) as [st1|] eqn:Hb; [|discriminate].
      destruct (IH _ H) as [Hr Hd']. split; [|done].
      eapply rtc_l; [|exact Hr]. by split.
Qed.

End LoopFacts.

(** * Running the loop against cooperative collaborators *)

Section Pacing.

Context {E : Environment} {P : Planner E}.
Variables (tau : Z) (no_control : bool) (N : nat) (clock : env_t E → Z).
Hypothesis Henv : counts_steps (E:=E) N clock.
Hypothesis Hplanner : solves_full_windows (P:=P) N tau.

Abbreviation State := (LoopState E P).

Lemma plans_window (st : State) :
  plans tau no_control st = true →
  (num_steps st ≤ (time_steps E (env st) - 1) - tau)%Z ∧ no_control = false.
Proof.
  unfold plans. intros [H1 H2]%andb_prop.
  by apply bool_decide_eq_true in H1, H2.
Qed.

Lemma plans_false (st : State) :
  plans tau no_control st = false →
  ((time_steps E (env st) - 1) - tau < num_steps st)%Z ∨ no_control = true.
Proof.
  unfold plans. intros [H|H]%andb_false_iff; apply bool_decide_eq_false in H.
  - left. lia.
  - right. by destruct no_control.
Qed.

Lemma solve_for_action_ok (st : State) :
  sized N (lp st) → (0 ≤ num_steps st)%Z →
  plans tau no_control st = true →
  ∃ actions l', solve_for_action tau st = Ok (actions, l')
                ∧ length actions = N ∧ sized N l'.
Proof.
  intros Hsz Hpos [Hwin _]%plans_window.
  destruct (Hplanner (lp st) (env st) (num_steps st) (current_socs st) Hsz)
    as (l1 & l2 & inflows & l3 & H1 & H2 & H3 & Hrows & Hcols & Hsz3); [lia|].
  destruct (column_ok inflows 0 Hcols) as (first & Hfirst & Hlen).
  destruct Hsz3 as [HN Hcaps].
  exists (zip_with np.true_divide first (battery_capacities P l3)), l3.
  split; [|split; [|done]].
  - unfold solve_for_action. rewrite H1. cbn [mbind result_bind].
    rewrite H2. cbn [mbind result_bind]. rewrite H3. cbn [mbind result_bind].
    rewrite Hfirst. cbn [mbind result_bind].
    unfold reshape_column. rewrite decide_True by congruence.
    cbn [mbind result_bind]. unfold divide. rewrite decide_True by congruence.
    reflexivity.
  - rewrite length_zip_with. lia.
Qed.

(** One pass of the body under the contracts. *)
Lemma loop_body_ok (st : State) :
  sized N (lp st) → (0 ≤ num_steps st)%Z →
  ∃ st', loop_body tau no_control st = Ok st'
         ∧ clock (env st') = (clock (env st) + 1)%Z
         ∧ time_steps E (env st') = time_steps E (env st)
         ∧ done st' = bool_decide (clock (env st') = time_steps E (env st'))
         ∧ sized N (lp st').
Proof.
  intros Hsz Hpos.
  assert (∃ actions l' evs,
    compute_action tau no_control st = Ok (actions, l', evs)
    ∧ length actions = N ∧ sized N l') as (actions & l' & evs & Hact & Hlen & Hsz').
  { unfold compute_action. destruct (plans tau no_control st) eqn:Hp.
    - destruct (solve_for_action_ok st Hsz Hpos Hp) as (a & l' & Ha & Hl & Hs).
      exists a, l', [EvSolve (num_steps st) tau (current_socs st)].
      by rewrite Ha.
    - exists (np.zeros (lp_N P (lp st))), (lp st), []. split; [done|].
      split; [|done]. unfold np.zeros. rewrite length_replicate. apply Hsz. }
  destruct (step_accepts N clock Henv (env st) actions Hlen) as (obs & d & e' & Hstep).
  destruct (step_clock N clock Henv _ _ _ _ _ Hstep) as (Hc & Ht & Hd & Hw).
  destruct (get_socs_ok obs (battery_capacities P l') Hw) as (socs & Hsocs).
  eexists. split.
  - unfold loop_body. rewrite Hact. cbn [mbind result_bind].
    rewrite Hstep. cbn [mbind result_bind]. rewrite Hsocs. reflexivity.
  - simpl. done.
Qed.

(** From a loop head at step [s] with [n + 1] steps to go, the loop runs
    to the end and logs the passes of the steps [s], ..., [s + n]. *)
Lemma control_loop_from (n : nat) :
  ∀ (st : State) (fuel : nat),
    done st = false →
    sized N (lp st) →
    (0 ≤ num_steps st)%Z →
    clock (env st) = num_steps st →
    (num_steps st + Z.of_nat n + 1)%Z = time_steps E (env st) →
    (n < fuel)%nat →
    ∃ st' evs,
      control_loop tau no_control fuel st = Some (Ok st')
      ∧ done st' = true
      ∧ num_steps st' = time_steps E (env st)
      ∧ log st' = log st ++ evs
      ∧ length (filter is_step evs) = S n
      ∧ solve_starts evs
        = (if no_control then []
           else seqZ (num_steps st)
                  (Z.min (Z.of_nat n + 1)
                     (time_steps E (env st) - tau - num_steps st))).
Proof.
  induction n as [|n IH]; intros st fuel Hdone Hsz Hpos Hclock HT Hfuel.
  all: destruct fuel as [|fuel]; [lia|].
  all: rewrite control_loop_unfold by done.
  all: destruct (loop_body_ok st Hsz Hpos) as (st1 & Hbody & Hc1 & Ht1 & Hd1 & Hsz1).
  all: destruct (loop_body_log _ _ _ _ Hbody) as (actions & Hlog & Hnum & Hidle).
  all: rewrite Hbody.
  - assert (done st1 = true) as Hdone1.
    { rewrite Hd1. apply bool_decide_eq_true. lia. }
    rewrite control_loop_done by done.
    eexists st1, _. split; [done|]. split; [done|].
    split; [lia|]. split; [exact Hlog|].
    split.
    { rewrite filter_app. destruct (plans tau no_control st); reflexivity. }
    unfold solve_starts. rewrite omap_app. simpl. rewrite app_nil_r.
    destruct (plans tau no_control st) eqn:Hp.
    + apply plans_window in Hp as [Hwin ->]. simpl.
      replace (Z.min _ _) with 1%Z by lia. reflexivity.
    + apply plans_false in Hp as [Hp| ->]; [|done].
      destruct no_control; [done|]. simpl.
      rewrite seqZ_nil; [done|lia].
  - assert (done st1 = false) as Hdone1.
    { rewrite Hd1. apply bool_decide_eq_false. lia. }
    destruct (IH st1 fuel Hdone1 Hsz1) as (st' & evs & Hrun & Hd' & Hn' & Hlog' & Hsteps & Hsolves);
      [lia|lia|lia|lia|].
    exists st', ((if plans tau no_control st
                  then [EvSolve (num_steps st) tau (current_socs st)] else [])
                 ++ [EvStep actions] ++ evs).
    split; [done|]. split; [done|]. split; [lia|].
    split. { rewrite Hlog', Hlog. by rewrite <- !app_assoc. }
    split.
    { rewrite !filter_app, !length_app, Hsteps.
      destruct (plans tau no_control st); reflexivity. }
    unfold solve_starts in *. rewrite !omap_app, Hsolves. simpl.
    destruct (plans tau no_control st) eqn:Hp.
    + apply plans_window in Hp as [Hwin ->]. simpl.
      rewrite Hnum, Ht1.
      rewrite (seqZ_cons (num_steps st)) by lia. f_equal.
      replace (Z.succ (num_steps st)) with (num_steps st + 1)%Z by lia.
      f_equal. lia.
    + apply plans_false in Hp as [Hp| ->]; [|done].
      destruct no_control; [done|]. simpl.
      rewrite !seqZ_nil; [done|lia|lia].
Qed.

End Pacing.


(** The loop head that [initialise] builds. *)
Lemma initialise_head {E : Environment} {P : Planner E} (tau : Z) (fs : FS)
    (schema_path : string) (dict : gmap string Q) (opex_factor : Q)
    (clip_level : string) (st0 : LoopState E P) :
  initialise tau fs schema_path dict opex_factor clip_level = Ok st0 →
  done st0 = false ∧ num_steps st0 = 0%Z ∧ log st0 = []
  ∧ (∃ e, reset E e = Ok (observations st0, env st0))
  ∧ get_socs (observations st0) (battery_capacities P (lp st0))
    = Ok (current_socs st0).
Proof.
  unfold initialise. intros H.
  destruct (CityLearnEnv E fs schema_path) as [e0|]; [|discriminate].
  simpl in H. destruct (LinProgModel P e0) as [l0|]; [|discriminate].
  simpl in H. destruct (generate_LP P _ _ _ _) as [l1|]; [|discriminate].
  simpl in H. destruct (reset E e0) as [[obs e1]|] eqn:Hreset; [|discriminate].
  simpl in H. destruct (get_socs obs _) as [socs|] eqn:Hsocs; [|discriminate].
  simplify_eq/=. repeat split; try done. by exists e0.
Qed.


(** The toy collaborators keep the contracts. *)
Lemma toy_counts_steps : counts_steps (E:=Toy.environment) 2 (λ clock, clock).
Proof.
  split.
  - intros e obs e' [= <- <-]. repeat split; [done|].
    exists 23%nat. split; [unfold soc_obs_index; lia|]. by repeat constructor.
  - intros e a Ha. simpl. rewrite decide_True by done. by eexists _, _, _.
  - intros e a obs d e'. simpl. destruct (decide _); [|discriminate].
    intros [= <- <- <-]. repeat split; [done|].
    exists 23%nat. split; [unfold soc_obs_index; lia|]. by repeat constructor.
Qed.

Lemma toy_solves (tau : Z) : solves_full_windows (P:=Toy.planner) 2 tau.
Proof.
  intros l e t socs _ _. exists l, l, [[2; 0]; [-2 # 1; 0]], l.
  repeat split; try done. repeat constructor; simpl; lia.
Qed.


(** * The zero action *)

Lemma plans_no_control {E : Environment} {P : Planner E} (tau : Z)
    (st : LoopState E P) :
  plans tau true st = false.
Proof. unfold plans. apply andb_false_r. Qed.

Lemma plans_terminal {E : Environment} {P : Planner E} (tau : Z)
    (no_control : bool) (st : LoopState E P) :
  ((time_steps E (env st) - 1) - tau < num_steps st)%Z →
  plans tau no_control st = false.
Proof.
  intros H. unfold plans. rewrite bool_decide_eq_false_2 by lia. done.
Qed.

Lemma idle_run {E : Environment} {P : Planner E} (tau : Z)
    (st st' : LoopState E P) :
  rtc (loop_step tau true) st st' →
  lp st' = lp st
  ∧ ∃ evs, log st' = log st ++ evs
           ∧ Forall (λ ev, ev = EvStep (np.zeros (lp_N P (lp st)))) evs.
Proof.
  induction 1 as [st|st st1 st' [_ Hbody] _ (Hlp & evs & Hlog & Hall)].
  - split; [done|]. exists []. by rewrite app_nil_r.
  - destruct (loop_body_log _ _ _ _ Hbody) as (a & Hlog1 & _ & Hidle).
    rewrite plans_no_control in Hlog1, Hidle.
    destruct (Hidle eq_refl) as [-> Hlp1]. rewrite Hlp1 in Hlp, Hall.
    split; [done|].
    exists (EvStep (np.zeros (lp_N P (lp st))) :: evs).
    split; [|by constructor].
    rewrite Hlog, Hlog1. simpl. by rewrite <- app_assoc.
Qed.

(** C6: with [no_control=true] every action applied is the zero vector
    with one entry per building; with control enabled the same zero action
    is applied at every step [s > time_steps - 1 - tau]; and a solve that
    fails is not replaced by the zero action: the exception leaves the
    loop and no action is applied. *)
Theorem zero_action_is_the_fallback {E : Environment} {P : Planner E}
    (tau : Z) :
  (∀ fuel fs schema_path dict opex_factor clip_level (st' : LoopState E P),
     simulate fuel fs schema_path dict opex_factor clip_level tau true
     = Some (Ok st') →
     Forall (λ ev, ev = EvStep (np.zeros (lp_N P (lp st')))) (log st'))
  ∧ (∀ st st' : LoopState E P,
       rtc (loop_step tau true) st st' →
       ∃ evs, log st' = log st ++ evs
              ∧ Forall (λ ev, ev = EvStep (np.zeros (lp_N P (lp st)))) evs)
  ∧ (∀ no_control (st st' : LoopState E P),
       ((time_steps E (env st) - 1) - tau < num_steps st)%Z →
       loop_body tau no_control st = Ok st' →
       log st' = log st ++ [EvStep (np.zeros (lp_N P (lp st)))])
  ∧ (∀ no_control fuel (st : LoopState E P) e,
       done st = false →
       plans tau no_control st = true →
       solve_for_action tau st = Raise e →
       loop_body tau no_control st = Raise e
       ∧ control_loop tau no_control (S fuel) st = Some (Raise e)).
Proof.
  split; [|split; [|split]].
  - intros fuel fs schema_path dict opex_factor clip_level st' Hsim.
    unfold simulate in Hsim.
    destruct (initialise _ _ _ _ _ _) as [st0|] eqn:Hinit; [|discriminate].
    destruct (initialise_head _ _ _ _ _ _ _ Hinit) as (_ & _ & Hlog0 & _).
    destruct (control_loop_reaches _ _ _ _ _ Hsim) as [Hrtc _].
    destruct (idle_run _ _ _ Hrtc) as (Hlp & evs & Hlog & Hall).
    rewrite Hlog, Hlog0, Hlp. exact Hall.
  - intros st st' Hrtc. by destruct (idle_run _ _ _ Hrtc) as [_ H].
  - intros no_control st st' Hs Hbody.
    destruct (loop_body_log _ _ _ _ Hbody) as (a & Hlog & _ & Hidle).
    rewrite (plans_terminal _ _ _ Hs) in Hlog, Hidle.
    by destruct (Hidle eq_refl) as [-> _].
  - intros no_control fuel st e Hdone Hp Hs.
    pose proof (loop_body_solve_fails _ _ _ _ Hp Hs) as Hbody.
    split; [done|]. rewrite control_loop_unfold by done. by rewrite Hbody.
Qed.

Lemma zero_action_is_the_fallback_witness :
  (∃ st' : LoopState Toy.environment Toy.planner,
     simulate 3 Toy.files Toy.schema_file Toy.prices 10 "m" 1 true = Some (Ok st')
     ∧ Forall (λ ev, ev = EvStep (np.zeros 2)) (log st'))
  ∧ (∃ st0 : LoopState Toy.environment Toy.failing_planner,
       initialise 1 Toy.files Toy.schema_file Toy.prices 10 "m" = Ok st0
       ∧ control_loop 1 false 3 st0 = Some (Raise PlannerError)).
Proof.
  split.
  - destruct (simulate (P:=Toy.planner) 3 Toy.files Toy.schema_file Toy.prices
                10 "m" 1 true) as [[st'|]|] eqn:Hsim; try discriminate.
    exists st'. split; [reflexivity|].
    exact (proj1 (zero_action_is_the_fallback 1) _ _ _ _ _ _ _ Hsim).
  - destruct (initialise (P:=Toy.failing_planner) 1 Toy.files Toy.schema_file
                Toy.prices 10 "m") as [st0|] eqn:Hinit; [|discriminate].
    exists st0. split; [reflexivity|].
    injection Hinit as <-.
    apply (proj2 (proj2 (proj2 (zero_action_is_the_fallback 1))) false 2%nat);
      reflexivity.
Defined.

(** * The state of charge *)

Lemma column_lookup (m : list (list Q)) (j : nat) (c : list Q) :
  column m j = Ok c →
  ∀ i row, m !! i = Some row →
    ∃ x, row !! j = Some x ∧ c !! i = Some x.
Proof.
  unfold column. revert c. induction m as [|r m IH]; intros c H i row Hrow.
  - done.
  - cbn [mapM] in H.
    destruct (index r j) as [x|] eqn:Hx; [|discriminate].
    unfold index in Hx. destruct (r !! j) as [x'|] eqn:Hx'; [|discriminate].
    injection Hx as ->. cbn [mbind result_bind] in H.
    destruct (mapM _ m) as [c'|] eqn:Hc'; [|discriminate].
    simpl in H. injection H as <-.
    destruct i as [|i]; simpl in Hrow.
    + injection Hrow as <-. by exists x.
    + by apply (IH c').
Qed.

(** Entry by entry, [get_socs] multiplies the fraction in the
    state-of-charge column by the capacity of the same building. *)
Lemma get_socs_lookup (obs : list (list Q)) (caps socs : list Q) :
  get_socs obs caps = Ok socs →
  ∀ i row capacity,
    obs !! i = Some row → caps !! i = Some capacity →
    ∃ charge, row !! soc_obs_index = Some charge
              ∧ socs !! i = Some (charge * capacity).
Proof.
  unfold get_socs. intros H i row capacity Hrow Hcap.
  destruct (column_of_rows obs soc_obs_index) as [charges|] eqn:Hcol;
    [|discriminate].
  simpl in H. injection H as <-. apply column_of_rows_inv in Hcol.
  destruct (column_lookup _ _ _ Hcol i row Hrow) as (x & Hx & Hc).
  exists x. split; [done|].
  rewrite lookup_zip_with, Hc. simpl. by rewrite Hcap.
Qed.

(** C7: at the loop start and after every environment step the state of
    charge held by the loop, which is what the planner is given, is derived
    from the latest observation matrix alone: entry [i] is the value of
    building [i] in the state-of-charge column times the capacity of
    building [i]. *)
Theorem socs_from_latest_observations {E : Environment} {P : Planner E}
    (tau : Z) (no_control : bool) (fs : FS) (schema_path : string)
    (dict : gmap string Q) (opex_factor : Q) (clip_level : string)
    (st0 st : LoopState E P) :
  initialise tau fs schema_path dict opex_factor clip_level = Ok st0 →
  rtc (loop_step tau no_control) st0 st →
  (* the observations are those of the reset or of the latest step *)
  ((st = st0 ∧ ∃ e, reset E e = Ok (observations st, env st))
   ∨ (∃ prev actions d,
        rtc (loop_step tau no_control) st0 prev
        ∧ loop_step tau no_control prev st
        ∧ step E (env prev) actions = Ok (observations st, d, env st)))
  (* the state of charge is derived from them *)
  ∧ get_socs (observations st) (battery_capacities P (lp st))
    = Ok (current_socs st)
  ∧ (∀ i row capacity,
       observations st !! i = Some row →
       battery_capacities P (lp st) !! i = Some capacity →
       ∃ charge, row !! soc_obs_index = Some charge
                 ∧ current_socs st !! i = Some (charge * capacity))
  (* and that is what a solve in the next pass receives *)
  ∧ (∀ st', loop_body tau no_control st = Ok st' →
       plans tau no_control st = true →
       ∃ socs actions,
         get_socs (observations st) (battery_capacities P (lp st)) = Ok socs
         ∧ log st' = log st ++ [EvSolve (num_steps st) tau socs; EvStep actions]).
Proof.
  intros Hinit Hrtc.
  assert (((st = st0 ∧ ∃ e, reset E e = Ok (observations st, env st))
           ∨ (∃ prev actions d,
                rtc (loop_step tau no_control) st0 prev
                ∧ loop_step tau no_control prev st
                ∧ step E (env prev) actions = Ok (observations st, d, env st)))
          ∧ get_socs (observations st) (battery_capacities P (lp st))
            = Ok (current_socs st)) as [Hobs Hsocs].
  { destruct (rtc_inv_r _ _ Hrtc) as [<-|(prev & Hprev & Hstep)].
    - destruct (initialise_head _ _ _ _ _ _ _ Hinit) as (_ & _ & _ & Hreset & Hs).
      split; [by left|done].
    - destruct Hstep as [Hdone Hbody].
      destruct (loop_body_socs _ _ _ _ Hbody) as ((a & d & Hst) & Hs).
      split; [|done]. right. exists prev, a, d. by repeat split. }
  split; [done|]. split; [done|]. split.
  - by apply get_socs_lookup.
  - intros st' Hbody Hp.
    destruct (loop_body_log _ _ _ _ Hbody) as (a & Hlog & _).
    rewrite Hp in Hlog. exists (current_socs st), a. by split.
Qed.

Lemma socs_from_latest_observations_witness :
  ∃ st0 st1 : LoopState Toy.environment Toy.planner,
    initialise 1 Toy.files Toy.schema_file Toy.prices 10 "m" = Ok st0
    ∧ loop_body 1 false st0 = Ok st1
    ∧ get_socs (observations st1) [4; 8] = Ok (current_socs st1)
    ∧ current_socs st1 = [(1 # 2) * 4; (1 # 4) * 8].
Proof.
  destruct (initialise (P:=Toy.planner) 1 Toy.files Toy.schema_file
              Toy.prices 10 "m") as [st0|] eqn:Hinit; [|discriminate].
  destruct (loop_body (P:=Toy.planner) 1 false st0) as [st1|] eqn:Hbody.
  2: { injection Hinit as <-. discriminate Hbody. }
  exists st0, st1. split; [reflexivity|]. split; [exact Hbody|].
  assert (rtc (loop_step 1 false) st0 st1) as Hrtc.
  { apply rtc_once. split; [|exact Hbody]. by injection Hinit as <-. }
  destruct (socs_from_latest_observations 1 false _ _ _ _ _ st0 st1 Hinit Hrtc)
    as (_ & Hsocs & _).
  split; [exact Hsocs|].
  injection Hinit as <-. injection Hbody as <-. reflexivity.
Defined.

(** * Clip levels other than 'd', 'b' and 'm' *)







(** * Paths *)

Lemma append_cons (x : ascii) (a b : string) :
  (String x a ++ b)%string = String x (a ++ b)%string.
Proof. reflexivity. Qed.

Lemma append_assoc (a b c : string) : ((a ++ b) ++ c = a ++ (b ++ c))%string.
Proof. induction a as [|x a IH]; [done|]. rewrite !append_cons. by f_equal. Qed.

Lemma split_nonempty (s : string) : path.split s ≠ [].
Proof.
  induction s as [|c s IH]; simpl; [done|].
  destruct (Ascii.eqb c path.sep); [done|]. by destruct (path.split s).
Qed.

Lemma split_app (a b : string) :
  path.split (a ++ String path.sep b) = path.split a ++ path.split b.
Proof.
  induction a as [|c a IH].
  - reflexivity.
  - rewrite append_cons. simpl. rewrite IH.
    destruct (Ascii.eqb c path.sep); [done|].
    pose proof (split_nonempty a). by destruct (path.split a).
Qed.

Lemma split_no_sep (name : string) : no_sep name = true → path.split name = [name].
Proof.
  induction name as [|c name IH]; simpl; [done|].
  intros [Hc Hn]%andb_prop. apply negb_true_iff in Hc. rewrite Hc.
  by rewrite IH.
Qed.

Lemma plain_name_inv (name : string) :
  plain_name name = true →
  no_sep name = true ∧ name ≠ ""%string ∧ name ≠ "."%string ∧ name ≠ ".."%string.
Proof.
  unfold plain_name. intros [[[H1 H2]%andb_prop H3]%andb_prop H4]%andb_prop.
  apply negb_true_iff, String.eqb_neq in H2, H3, H4. done.
Qed.

Lemma norm_step_plain (n : nat) (comps : list string) (name : string) :
  plain_name name = true → path.norm_step n comps name = comps ++ [name].
Proof.
  intros (_ & H1 & H2 & H3)%plain_name_inv. unfold path.norm_step.
  apply String.eqb_neq in H1, H2, H3. by rewrite H1, H2, H3.
Qed.

Lemma join_snoc (comps : list string) (name : string) :
  path.join (comps ++ [name])
  = match comps with
    | [] => name
    | _ => (path.join comps ++ String path.sep name)%string
    end.
Proof.
  unfold path.join. induction comps as [|c comps IH]; [done|].
  destruct comps as [|c' comps]; [done|].
  change (String.concat "/" ((c :: c' :: comps) ++ [name]))
    with (c ++ "/" ++ String.concat "/" ((c' :: comps) ++ [name]))%string.
  rewrite IH.
  change (String.concat "/" (c :: c' :: comps))
    with (c ++ "/" ++ String.concat "/" (c' :: comps))%string.
  by rewrite !append_assoc.
Qed.

Lemma last_split_tail (prefix name : string) :
  no_sep name = true →
  last (path.split (prefix ++ String path.sep name)) = Some name.
Proof.
  intros Hn. rewrite split_app, (split_no_sep _ Hn). apply last_snoc.
Qed.

Lemma last_split_slashes (n : nat) (s : string) :
  last (path.split (string_of_list_ascii (replicate n path.sep) ++ s))
  = last (path.split s).
Proof.
  induction n as [|n IH]; [done|].
  cbn [replicate string_of_list_ascii]. rewrite append_cons.
  cbn [path.split]. rewrite Ascii.eqb_refl, <- IH.
  pose proof (split_nonempty (string_of_list_ascii (replicate n path.sep) ++ s)).
  by destruct (path.split _).
Qed.

Lemma append_nonempty_r (a b : string) : b ≠ ""%string → (a ++ b)%string ≠ ""%string.
Proof. destruct a; [done|]. discriminate. Qed.

(** The text [normpath] builds from components that end in a plain name. *)
Lemma last_of_normalised (n : nat) (comps : list string) (name : string) :
  plain_name name = true →
  let p' := (string_of_list_ascii (replicate n path.sep)
             ++ path.join (comps ++ [name]))%string in
  p' ≠ ""%string ∧ last (path.split p') = Some name.
Proof.
  intros Hplain. pose proof (plain_name_inv _ Hplain) as (Hn & Hne & _).
  cbv zeta. rewrite join_snoc, last_split_slashes.
  destruct comps as [|c comps].
  - split; [by apply append_nonempty_r|]. by rewrite (split_no_sep _ Hn).
  - split; [apply append_nonempty_r; by destruct (path.join _)|].
    by apply last_split_tail.
Qed.

(** The last component of a path that ends in a plain file name is that
    name, whatever the directories before it. *)
Lemma last_component_file (dir name : string) :
  plain_name name = true →
  path.last_component (dir ++ String path.sep name) = name
  ∧ path.last_component name = name.
Proof.
  intros Hplain. pose proof (plain_name_inv _ Hplain) as (Hn & Hne & _).
  assert (∀ p comps, p ≠ ""%string → path.split p = comps ++ [name] →
            path.last_component p = name) as Hlast.
  { intros p comps Hp Hsplit. unfold path.last_component, path.normpath.
    apply String.eqb_neq in Hp. rewrite Hp, Hsplit.
    rewrite foldl_app. simpl. rewrite norm_step_plain by done.
    destruct (last_of_normalised (path.initial_slashes p)
                (foldl (path.norm_step (path.initial_slashes p)) [] comps)
                name Hplain) as [Hne' Hl].
    apply String.eqb_neq in Hne'. rewrite Hne', Hl. done. }
  split.
  - apply (Hlast _ (path.split dir)).
    + by apply append_nonempty_r.
    + by rewrite split_app, (split_no_sep _ Hn).
  - apply (Hlast _ []); [done|]. by rewrite (split_no_sep _ Hn).
Qed.

(** * Cleanup of the schema file *)

Lemma cleanup_kept (fs : FS) (schema_path : string) :
  path.last_component schema_path = "schema.json"%string →
  cleanup fs schema_path = Ok fs.
Proof. intros H. unfold cleanup. by rewrite H. Qed.

Lemma cleanup_removed (fs : FS) (schema_path : string) :
  path.last_component schema_path ≠ "schema.json"%string →
  cleanup fs schema_path = os_remove fs schema_path.
Proof.
  intros H. unfold cleanup. apply String.eqb_neq in H. by rewrite H.
Qed.

Section WrapperFacts.

Context {E : Environment} {P : Planner E}.
Variable build_schema : gmap string kwarg → FS → result (string * FS).
Variable meanwhile : FS → FS.

(** The wrapper after the schema is built and the evaluation has returned. *)
Lemma wrapper_after_evaluation (fuel : nat)
    (battery_capacities solar_capacities battery_efficiencies : list Q)
    (base_kwargs : gmap string kwarg) (pricing_dict : gmap string Q)
    (opex_factor : Q) (mproc_id : option string) (return_contrs no_control : bool)
    (fs fs1 : FS) (schema_path : string) (eval_results : result EvalResults) :
  build_schema (merged_kwargs battery_capacities solar_capacities
                  battery_efficiencies base_kwargs mproc_id) fs
  = Ok (schema_path, fs1) →
  evaluate_system (P:=P) fuel fs1 schema_path pricing_dict opex_factor "m" true
    48 no_control = Some eval_results →
  construct_and_evaluate_system (P:=P) build_schema meanwhile fuel
    battery_capacities solar_capacities battery_efficiencies base_kwargs
    pricing_dict opex_factor mproc_id return_contrs no_control fs
  = Some (match eval_results with
          | Raise e => (Raise e, meanwhile fs1)
          | Ok r =>
              match cleanup (meanwhile fs1) schema_path with
              | Raise e => (Raise e, meanwhile fs1)
              | Ok fs' => (Ok (if return_contrs then Full r
                               else Objective (objective r)), fs')
              end
          end).
Proof.
  intros Hb He. unfold construct_and_evaluate_system. rewrite Hb, He.
  destruct eval_results as [r|e]; [|done].
  by destruct (cleanup (meanwhile fs1) schema_path).
Qed.

End WrapperFacts.

(** C8: after a successful evaluation the schema file is deleted exactly
    when the last component of its path is not [schema.json]; a file named
    [schema.json] stays, with or without a worker identifier. *)
Theorem schema_json_is_never_deleted {E : Environment} {P : Planner E}
    (build_schema : gmap string kwarg → FS → result (string * FS))
    (meanwhile : FS → FS) (fuel : nat)
    (battery_capacities solar_capacities battery_efficiencies : list Q)
    (base_kwargs : gmap string kwarg) (pricing_dict : gmap string Q)
    (opex_factor : Q) (mproc_id : option string) (return_contrs no_control : bool)
    (fs fs1 : FS) (schema_path : string) (r : EvalResults) :
  build_schema (merged_kwargs battery_capacities solar_capacities
                  battery_efficiencies base_kwargs mproc_id) fs
  = Ok (schema_path, fs1) →
  evaluate_system (P:=P) fuel fs1 schema_path pricing_dict opex_factor "m" true
    48 no_control = Some (Ok r) →
  is_Some (meanwhile fs1 !! schema_path) →
  ∃ fs',
    construct_and_evaluate_system (P:=P) build_schema meanwhile fuel
      battery_capacities solar_capacities battery_efficiencies base_kwargs
      pricing_dict opex_factor mproc_id return_contrs no_control fs
    = Some (Ok (if return_contrs then Full r else Objective (objective r)), fs')
    ∧ (fs' !! schema_path = None
       ↔ path.last_component schema_path ≠ "schema.json"%string)
    ∧ (path.last_component schema_path = "schema.json"%string →
       fs' = meanwhile fs1)
    ∧ (∀ other, other ≠ schema_path → fs' !! other = meanwhile fs1 !! other)
    ∧ (∀ dir name,
         plain_name name = true →
         schema_path = (dir ++ String path.sep name)%string ∨ schema_path = name →
         (fs' !! schema_path = None ↔ name ≠ "schema.json"%string)).
Proof.
  intros Hb He [text Hfile].
  rewrite (wrapper_after_evaluation _ _ _ _ _ _ _ _ _ _ _ _ _ _ _ _ Hb He).
  assert (∀ dir name, plain_name name = true →
            schema_path = (dir ++ String path.sep name)%string ∨ schema_path = name →
            path.last_component schema_path = name) as Hfinal.
  { intros dir name Hplain [-> | ->]; by apply last_component_file. }
  destruct (decide (path.last_component schema_path = "schema.json"%string))
    as [Hname|Hname].
  - rewrite (cleanup_kept _ _ Hname). exists (meanwhile fs1).
    split; [done|]. split; [rewrite Hfile; by split|].
    split; [done|]. split; [done|].
    intros dir name Hplain Hpath. rewrite (Hfinal _ _ Hplain Hpath) in Hname.
    rewrite Hfile, Hname. by split.
  - rewrite (cleanup_removed _ _ Hname). unfold os_remove. rewrite Hfile.
    exists (delete schema_path (meanwhile fs1)).
    split; [done|]. split; [|split; [|split]].
    + rewrite lookup_delete_eq. by split.
    + done.
    + intros other Hother. by rewrite lookup_delete_ne.
    + intros dir name Hplain Hpath. rewrite (Hfinal _ _ Hplain Hpath) in Hname.
      rewrite lookup_delete_eq. by split.
Qed.

Lemma schema_json_is_never_deleted_witness :
  (∃ fs',
     construct_and_evaluate_system (P:=Toy.planner) ToyFiles.build_schema
       ToyFiles.alone 3 [4; 8] [1; 1] [1; 1] ∅ Toy.prices 10 (Some "7"%string)
       false false ∅
     = Some (Ok (Objective (520 # 2)), fs')
     ∧ fs' !! Toy.schema_file = None)
  ∧ (∃ fs',
       construct_and_evaluate_system (P:=Toy.planner) ToyFiles.build_schema
         ToyFiles.alone 3 [4; 8] [1; 1] [1; 1] ∅ Toy.prices 10 None
         false false ∅
       = Some (Ok (Objective (520 # 2)), fs')
       ∧ fs' = {[ "data/schema.json"%string := "{}"%string ]}).
Proof.
  split.
  - destruct (schema_json_is_never_deleted (P:=Toy.planner)
                ToyFiles.build_schema ToyFiles.alone 3 [4; 8] [1; 1] [1; 1] ∅
                Toy.prices 10 (Some "7"%string) false false ∅
                {[ Toy.schema_file := "{}"%string ]} Toy.schema_file
                {| objective := 520 # 2; objective_contrs := [200; 120 # 2; 0; 0] |})
      as (fs' & Hrun & Hgone & _); [reflexivity|reflexivity|by eexists|].
    exists fs'. split; [exact Hrun|]. apply Hgone. discriminate.
  - destruct (schema_json_is_never_deleted (P:=Toy.planner)
                ToyFiles.build_schema ToyFiles.alone 3 [4; 8] [1; 1] [1; 1] ∅
                Toy.prices 10 None false false ∅
                {[ "data/schema.json"%string := "{}"%string ]} "data/schema.json"
                {| objective := 520 # 2; objective_contrs := [200; 120 # 2; 0; 0] |})
      as (fs' & Hrun & _ & Hkept & _); [reflexivity|reflexivity|by eexists|].
    exists fs'. split; [exact Hrun|]. apply Hkept. reflexivity.
Defined.

(** * A cleanup that fails *)

(** C9, as the claim has it, fails: the evaluation succeeds, another worker
    has removed the schema file, and the wrapper raises instead of
    returning the objective. *)
Lemma cleanup_failure_masks_the_result :
  evaluate_system (P:=Toy.planner) 3 {[ Toy.schema_file := "{}"%string ]}
    Toy.schema_file Toy.prices 10 "m" true 48 false
  = Some (Ok {| objective := 520 # 2; objective_contrs := [200; 120 # 2; 0; 0] |})
  ∧ construct_and_evaluate_system (P:=Toy.planner) ToyFiles.build_schema
      ToyFiles.same_id_worker 3 [4; 8] [1; 1] [1; 1] ∅ Toy.prices 10
      (Some "7"%string) false false ∅
    = Some (Raise FileNotFoundError, ∅).
Proof.
  split; [reflexivity|]. vm_compute. reflexivity.
Qed.

(** C9, amended: the wrapper does not catch a failure of the cleanup. After
    a successful evaluation it returns the objective (or the full result)
    when the cleanup goes through, that is when the file is named
    [schema.json] (nothing is removed) or is still there (it is removed);
    when the file is not named [schema.json] and is gone, the
    [FileNotFoundError] of [os.remove] leaves the wrapper and no result is
    returned. When the evaluation raises, the cleanup is not attempted. *)
Theorem cleanup_failure_propagates {E : Environment} {P : Planner E}
    (build_schema : gmap string kwarg → FS → result (string * FS))
    (meanwhile : FS → FS) (fuel : nat)
    (battery_capacities solar_capacities battery_efficiencies : list Q)
    (base_kwargs : gmap string kwarg) (pricing_dict : gmap string Q)
    (opex_factor : Q) (mproc_id : option string) (return_contrs no_control : bool)
    (fs fs1 : FS) (schema_path : string) (eval_results : result EvalResults) :
  build_schema (merged_kwargs battery_capacities solar_capacities
                  battery_efficiencies base_kwargs mproc_id) fs
  = Ok (schema_path, fs1) →
  evaluate_system (P:=P) fuel fs1 schema_path pricing_dict opex_factor "m" true
    48 no_control = Some eval_results →
  let run := construct_and_evaluate_system (P:=P) build_schema meanwhile fuel
               battery_capacities solar_capacities battery_efficiencies
               base_kwargs pricing_dict opex_factor mproc_id return_contrs
               no_control fs in
  let named_schema_json :=
    path.last_component schema_path = "schema.json"%string in
  match eval_results with
  | Raise e => run = Some (Raise e, meanwhile fs1)
  | Ok r =>
      let returned := if return_contrs then Full r else Objective (objective r) in
      (named_schema_json → run = Some (Ok returned, meanwhile fs1))
      ∧ (¬ named_schema_json → is_Some (meanwhile fs1 !! schema_path) →
         run = Some (Ok returned, delete schema_path (meanwhile fs1)))
      ∧ (¬ named_schema_json → meanwhile fs1 !! schema_path = None →
         run = Some (Raise FileNotFoundError, meanwhile fs1))
  end.
Proof.
  intros Hb He run named. subst run.
  rewrite (wrapper_after_evaluation _ _ _ _ _ _ _ _ _ _ _ _ _ _ _ _ Hb He).
  destruct eval_results as [r|e]; [|done].
  split; [|split].
  - intros Hname. by rewrite (cleanup_kept _ _ Hname).
  - intros Hname [text Hfile]. rewrite (cleanup_removed _ _ Hname).
    unfold os_remove. by rewrite Hfile.
  - intros Hname Hfile. rewrite (cleanup_removed _ _ Hname).
    unfold os_remove. by rewrite Hfile.
Qed.

Lemma cleanup_failure_propagates_witness :
  construct_and_evaluate_system (P:=Toy.planner) ToyFiles.build_schema
    ToyFiles.same_id_worker 3 [4; 8] [1; 1] [1; 1] ∅ Toy.prices 10
    (Some "7"%string) false false ∅
  = Some (Raise FileNotFoundError, ∅).
Proof.
  pose proof (cleanup_failure_propagates (P:=Toy.planner) ToyFiles.build_schema
    ToyFiles.same_id_worker 3 [4; 8] [1; 1] [1; 1] ∅ Toy.prices 10
    (Some "7"%string) false false ∅ {[ Toy.schema_file := "{}"%string ]}
    Toy.schema_file
    (Ok {| objective := 520 # 2; objective_contrs := [200; 120 # 2; 0; 0] |})
    eq_refl eq_refl) as (_ & _ & Hraise).
  rewrite Hraise; [|discriminate|reflexivity].
  f_equal.
Defined.

(* ================================================================== *)
(** * Further properties of the code *)
(* ================================================================== *)


(** * The shape of the result *)

Lemma operating_length (bs : list Building) (dict : gmap string Q)
    (clip_level : string) (ops : list Q) :
  operating_contributions bs dict clip_level = Ok ops →
  length ops = if known_clip_level clip_level then 2%nat else 0%nat.
Proof.
  unfold operating_contributions, known_clip_level, scale_by_carbon.
  destruct (String.eqb clip_level "d"); [|destruct (String.eqb clip_level "b");
    [|destruct (String.eqb clip_level "m")]]; simpl.
  4: by intros [= <-].
  all: repeat match goal with
       | |- context [district_term ?b ?s] => destruct (district_term b s); simpl
       | |- context [building_term ?b ?s] => destruct (building_term b s); simpl
       | |- context [getitem ?d ?k] => destruct (getitem d k); simpl
       end; try discriminate; by intros [= <-].
Qed.

(** X1: whenever the aggregation returns, the objective is the sum of the
    listed contributions, and the list has two entries for a clip level
    'd', 'b' or 'm' (none for any other) plus two when [design] is set. *)
Theorem objective_is_sum_of_entries (bs : list Building) (dict : gmap string Q)
    (opex_factor : Q) (clip_level : string) (design : bool) (r : EvalResults) :
  calculate_objective bs dict opex_factor clip_level design = Ok r →
  objective r = np.sum (objective_contrs r)
  ∧ length (objective_contrs r) = entries clip_level design.
Proof.
  unfold calculate_objective, entries. intros H.
  destruct (operating_contributions bs dict clip_level) as [ops|] eqn:Hops;
    [|discriminate].
  apply operating_length in Hops. simpl in H. destruct design.
  - destruct (design_contributions_cases bs dict opex_factor)
      as [(e & He)|(caps & kb & ks & _ & _ & _ & Hd)].
    + by rewrite He in H.
    + rewrite Hd in H. simpl in H. injection H as <-. simpl. split; [done|].
      rewrite length_app, length_fmap, Hops. simpl. lia.
  - simpl in H. injection H as <-. simpl. split; [done|]. lia.
Qed.

Lemma objective_is_sum_of_entries_witness :
  ∃ r, calculate_objective crossing_twice Toy.prices 10 "m" true = Ok r
       ∧ objective r = np.sum (objective_contrs r)
       ∧ length (objective_contrs r) = 4%nat.
Proof.
  eexists. split; [reflexivity|].
  apply (objective_is_sum_of_entries crossing_twice Toy.prices 10 "m" true).
  reflexivity.
Defined.

(** * What the aggregation reads of the pricing dictionary *)

(** X2: with [design=false] the result depends on the pricing dictionary
    through its entry 'carbon' alone, and not on the opex factor. *)
Theorem operating_cost_reads_carbon_only (bs : list Building)
    (dict dict' : gmap string Q) (opex_factor opex_factor' : Q)
    (clip_level : string) :
  dict !! "carbon"%string = dict' !! "carbon"%string →
  calculate_objective bs dict opex_factor clip_level false
  = calculate_objective bs dict' opex_factor' clip_level false.
Proof.
  intros H. unfold calculate_objective, operating_contributions,
    scale_by_carbon, getitem. by rewrite H.
Qed.

Lemma operating_cost_reads_carbon_only_witness :
  calculate_objective crossing_twice Toy.prices 10 "d" false
  = calculate_objective crossing_twice {[ "carbon"%string := 1 # 2 ]} 3 "d" false.
Proof.
  apply (operating_cost_reads_carbon_only crossing_twice Toy.prices
           {[ "carbon"%string := 1 # 2 ]} 10 3 "d").
  reflexivity.
Defined.

Lemma getitem_missing (d : gmap string Q) (key : string) :
  d !! key = None → getitem d key = Raise KeyError.
Proof. intros H. unfold getitem. by rewrite H. Qed.

(** X3: a key missing from the pricing dictionary is a [KeyError] exactly
    where the key is read. For aligned series a missing 'carbon' makes
    every clip level 'd', 'b', 'm' raise, with or without [design]; a clip
    level outside these never reads 'carbon'; and with [design=true],
    operating entries and capacity histories in place, a missing 'battery'
    raises, and so does a missing 'solar'. *)
Theorem missing_price_is_a_key_error (bs : list Building) (dict : gmap string Q)
    (opex_factor : Q) :
  (aligned elec_series bs = true → aligned carbon_series bs = true →
   dict !! "carbon"%string = None →
   ∀ clip_level design,
     known_clip_level clip_level = true →
     calculate_objective bs dict opex_factor clip_level design = Raise KeyError)
  ∧ (∀ clip_level,
       known_clip_level clip_level = false →
       calculate_objective bs dict opex_factor clip_level false
       = Ok {| objective := 0; objective_contrs := [] |})
  ∧ (∀ clip_level ops caps,
       operating_contributions bs dict clip_level = Ok ops →
       Forall2 (λ b c, initial_capacity b = Some c) bs caps →
       dict !! "battery"%string = None ∨ dict !! "solar"%string = None →
       calculate_objective bs dict opex_factor clip_level true = Raise KeyError).
Proof.
  split; [|split].
  - intros Hel Hca Hk clip_level design Hclip.
    destruct (building_term_ok _ _ Hel) as (eb & Heb & _).
    destruct (district_term_ok _ _ Hel) as (ed & Hed & _).
    destruct (building_term_ok _ _ Hca) as (cb & Hcb & _).
    destruct (district_term_ok _ _ Hca) as (cd & Hcd & _).
    unfold calculate_objective, operating_contributions, scale_by_carbon.
    rewrite Heb, Hed, Hcb, Hcd, (getitem_missing _ _ Hk).
    unfold known_clip_level in Hclip.
    destruct (String.eqb clip_level "d"); [done|].
    destruct (String.eqb clip_level "b"); [done|].
    destruct (String.eqb clip_level "m"); [done|discriminate].
  - intros clip_level Hclip. unfold known_clip_level in Hclip.
    apply orb_false_elim in Hclip as [[Hd Hb]%orb_false_elim Hm].
    unfold calculate_objective, operating_contributions. by rewrite Hd, Hb, Hm.
  - intros clip_level ops caps Hops Hcaps Hmissing.
    unfold calculate_objective. rewrite Hops. cbn [mbind result_bind].
    unfold design_contributions.
    rewrite (initial_capacities_ok _ _ Hcaps). cbn [mbind result_bind].
    destruct Hmissing as [Hb|Hs].
    + by rewrite (getitem_missing _ _ Hb).
    + rewrite (getitem_missing _ _ Hs).
      unfold getitem. destruct (dict !! "battery"%string); reflexivity.
Qed.

Lemma missing_price_is_a_key_error_witness :
  calculate_objective crossing_twice ∅ 10 "m" true = Raise KeyError
  ∧ calculate_objective crossing_twice {[ "carbon"%string := 1 # 2 ]} 10 "m" true
    = Raise KeyError.
Proof.
  split.
  - apply (proj1 (missing_price_is_a_key_error crossing_twice ∅ 10));
      reflexivity.
  - apply (proj2 (proj2 (missing_price_is_a_key_error crossing_twice
             {[ "carbon"%string := 1 # 2 ]} 10)) "m" [20; 12 * (1 # 2)] [0; 0]).
    + apply (operating_m _ _ 20 12 (1 # 2)); reflexivity.
    + repeat constructor.
    + left. reflexivity.
Defined.


(** * Series of different lengths *)

Lemma dot_mismatch (a b : list Q) :
  length a ≠ length b → np.dot a b = Raise ValueError.
Proof. intros H. unfold np.dot. by rewrite decide_False. Qed.

Lemma foldl_add_raise (rs : list (list Q)) (e : exn) :
  foldl (λ acc row, a ← acc; np.add a row) (Raise e) rs = Raise e.
Proof. induction rs as [|r rs IH]; [done|]. simpl. exact IH. Qed.

Lemma foldl_add_mismatch (rs : list (list Q)) (a : list Q) :
  ¬ Forall (λ r, length r = length a) rs →
  foldl (λ acc row, x ← acc; np.add x row) (Ok a) rs = Raise ValueError.
Proof.
  revert a. induction rs as [|r rs IH]; intros a Hnot.
  - destruct Hnot. constructor.
  - simpl. unfold np.add at 2.
    destruct (decide (length a = length r)) as [Heq|Hne].
    + apply IH. intros Hall. apply Hnot. constructor; [done|].
      eapply Forall_impl; [exact Hall|]. simpl. intros row.
      rewrite length_zip_with. lia.
    + simpl. apply foldl_add_raise.
Qed.

Lemma aligned_false_inv (series : Building → list Q) (b0 : Building)
    (rest : list Building) :
  aligned series (b0 :: rest) = false →
  ¬ Forall (λ b, length (net_electricity_consumption b) = length (series b0))
      (b0 :: rest).
Proof.
  intros Hal Hall. unfold aligned in Hal.
  assert (forallb (λ b, Nat.eqb (length (net_electricity_consumption b))
                          (length (series b0))) (b0 :: rest) = true) as Ht.
  { apply forallb_forall. intros b Hb. apply Nat.eqb_eq.
    rewrite Forall_forall in Hall. apply Hall. by apply list_elem_of_In. }
  congruence.
Qed.

Lemma district_term_mismatch (series : Building → list Q) (b0 : Building)
    (rest : list Building) :
  aligned series (b0 :: rest) = false →
  district_term (b0 :: rest) series = Raise ValueError.
Proof.
  intros Hnot%aligned_false_inv. unfold district_term, net_series.
  rewrite fmap_cons. unfold np.sum_axis0.
  destruct (decide (Forall (λ r, length r = length (net_electricity_consumption b0))
                      (net_electricity_consumption <$> rest))) as [Hall|Hrag].
  - destruct (foldl_add_ok _ _ Hall) as (s & Hs & Hlen & _).
    rewrite Hs. simpl. apply dot_mismatch. rewrite length_clip0, Hlen.
    intros Heq. apply Hnot. constructor; [done|].
    apply Forall_fmap in Hall. eapply Forall_impl; [exact Hall|].
    simpl. intros b Hb. congruence.
  - by rewrite (foldl_add_mismatch _ _ Hrag).
Qed.

Lemma priced_rows_mismatch (bs : list Building) (b0 : Building)
    (series : Building → list Q) (nets : list (list Q)) :
  index bs 0 = Ok b0 →
  ¬ Forall (λ net, length net = length (series b0)) nets →
  mapM (λ net_elec, b ← index bs 0; np.dot (np.clip0 net_elec) (series b)) nets
  = Raise ValueError.
Proof.
  intros Hb0. induction nets as [|net nets IH]; intros Hnot.
  - destruct Hnot. constructor.
  - cbn [mapM]. rewrite Hb0 in IH |- *. cbn [mbind result_bind] in IH |- *.
    destruct (decide (length net = length (series b0))) as [Heq|Hne].
    + destruct (dot_ok (np.clip0 net) (series b0)) as (d & Hd & _);
        [by rewrite length_clip0|].
      rewrite Hd. cbn [mbind result_bind]. rewrite IH; [done|].
      intros Hall. apply Hnot. by constructor.
    + rewrite dot_mismatch; [done|]. by rewrite length_clip0.
Qed.

Lemma building_term_mismatch (series : Building → list Q) (b0 : Building)
    (rest : list Building) :
  aligned series (b0 :: rest) = false →
  building_term (b0 :: rest) series = Raise ValueError.
Proof.
  intros Hnot%aligned_false_inv. unfold building_term.
  rewrite (priced_rows_mismatch (b0 :: rest) b0); [done|done|].
  intros Hall. apply Hnot. unfold net_series in Hall. by apply Forall_fmap in Hall.
Qed.

(** X4: for at least one building, the district term and the building term
    are computed exactly when every net consumption series is as long as
    the price (or carbon) series of the first building; otherwise both
    raise [ValueError]. *)
Theorem terms_need_series_of_one_length (series : Building → list Q)
    (bs : list Building) :
  bs ≠ [] →
  (aligned series bs = true ↔ ∃ d, district_term bs series = Ok d)
  ∧ (aligned series bs = true ↔ ∃ b, building_term bs series = Ok b)
  ∧ (aligned series bs = false →
     district_term bs series = Raise ValueError
     ∧ building_term bs series = Raise ValueError).
Proof.
  intros Hne. destruct bs as [|b0 rest]; [done|].
  split; [|split].
  - split.
    + intros Hal. destruct (district_term_ok _ _ Hal) as (d & Hd & _). by exists d.
    + intros [d Hd]. destruct (aligned series (b0 :: rest)) eqn:Hal; [done|].
      by rewrite (district_term_mismatch _ _ _ Hal) in Hd.
  - split.
    + intros Hal. destruct (building_term_ok _ _ Hal) as (b & Hb & _). by exists b.
    + intros [b Hb]. destruct (aligned series (b0 :: rest)) eqn:Hal; [done|].
      by rewrite (building_term_mismatch _ _ _ Hal) in Hb.
  - intros Hal. split;
      [by apply district_term_mismatch|by apply building_term_mismatch].
Qed.

Lemma terms_need_series_of_one_length_witness :
  district_term [building_of [1; 2] [1] [1]] elec_series = Raise ValueError
  ∧ building_term [building_of [1; 2] [1] [1]] elec_series = Raise ValueError.
Proof.
  apply (terms_need_series_of_one_length elec_series
           [building_of [1; 2] [1] [1]]); [discriminate|reflexivity].
Defined.

(** * No building at all *)

(** X5: with an empty list of buildings the clip levels 'd' and 'm' raise
    [IndexError] (they read [env.buildings[0]]), while 'b', whose reads of
    [env.buildings[0]] sit inside a comprehension that never runs, returns
    two zero entries; and any level for which the operating part returns
    gets zero capital costs with [design=true]. *)
Theorem no_buildings (dict : gmap string Q) (opex_factor : Q) :
  (∀ design, calculate_objective [] dict opex_factor "d" design = Raise IndexError)
  ∧ (∀ design, calculate_objective [] dict opex_factor "m" design = Raise IndexError)
  ∧ (∀ k, dict !! "carbon"%string = Some k →
       calculate_objective [] dict opex_factor "b" false
       = Ok {| objective := np.sum [0; 0 * k]; objective_contrs := [0; 0 * k] |})
  ∧ (∀ k kb ks,
       dict !! "carbon"%string = Some k →
       dict !! "battery"%string = Some kb →
       dict !! "solar"%string = Some ks →
       ∃ r, calculate_objective [] dict opex_factor "b" true = Ok r
            ∧ objective_contrs r
              = [0 * opex_factor; 0 * k * opex_factor; 0 * kb; 0 * ks]
            ∧ objective r == 0).
Proof.
  split; [done|]. split.
  { intros design. unfold calculate_objective, operating_contributions,
      scale_by_carbon. simpl. by destruct (getitem dict "carbon"). }
  split.
  - intros k Hk. unfold calculate_objective, operating_contributions,
      scale_by_carbon. simpl. by rewrite (getitem_ok _ _ _ Hk).
  - intros k kb ks Hk Hkb Hks. eexists. split.
    + unfold calculate_objective, operating_contributions, scale_by_carbon,
        design_contributions. simpl.
      rewrite (getitem_ok _ _ _ Hk), (getitem_ok _ _ _ Hkb), (getitem_ok _ _ _ Hks).
      reflexivity.
    + simpl. split; [done|]. unfold np.sum. simpl. ring.
Qed.

Lemma no_buildings_witness :
  calculate_objective [] Toy.prices 10 "b" false
  = Ok {| objective := np.sum [0; 0 * (1 # 2)];
          objective_contrs := [0; 0 * (1 # 2)] |}.
Proof.
  apply (proj1 (proj2 (proj2 (no_buildings Toy.prices 10)))). reflexivity.
Defined.


(** * Whose tariff is used *)

Lemma mapM_result_ext {A B} (f g : A → result B) (l : list A) :
  (∀ a, f a = g a) → mapM f l = mapM g l.
Proof.
  intros H. induction l as [|a l IH]; [done|]. cbn [mapM]. by rewrite H, IH.
Qed.

Lemma same_but_tariffs_nets (bs bs' : list Building) :
  Forall2 same_but_tariffs bs bs' → net_series bs = net_series bs'.
Proof.
  unfold net_series. induction 1 as [|b b' bs bs' (Hn & _ & _) _ IH]; [done|].
  rewrite !fmap_cons. by f_equal.
Qed.

Lemma terms_of_first_building (series : Building → list Q)
    (bs bs' : list Building) :
  Forall2 same_but_tariffs bs bs' →
  series <$> head bs = series <$> head bs' →
  district_term bs series = district_term bs' series
  ∧ building_term bs series = building_term bs' series.
Proof.
  intros Hsame Hhead. pose proof (same_but_tariffs_nets _ _ Hsame) as Hnets.
  unfold district_term, building_term. rewrite Hnets.
  destruct Hsame as [|b b' bs bs' _ _]; [done|].
  simpl in Hhead. injection Hhead as Hser.
  change (index (b :: bs) 0) with (Ok b). change (index (b' :: bs') 0) with (Ok b').
  cbn [mbind result_bind]. by rewrite Hser.
Qed.

(** X6: only the electricity-price and carbon-intensity series of the
    first building enter the objective: two lists of buildings that agree
    on net consumption, storage and PV, building by building, and on the
    two series of their first building, give the same result, whatever
    tariffs the other buildings carry. *)
Theorem only_first_tariff_is_used (bs bs' : list Building)
    (dict : gmap string Q) (opex_factor : Q) (clip_level : string)
    (design : bool) :
  Forall2 same_but_tariffs bs bs' →
  elec_series <$> head bs = elec_series <$> head bs' →
  carbon_series <$> head bs = carbon_series <$> head bs' →
  calculate_objective bs dict opex_factor clip_level design
  = calculate_objective bs' dict opex_factor clip_level design.
Proof.
  intros Hsame Hel Hca.
  destruct (terms_of_first_building elec_series _ _ Hsame Hel) as [Hde Hbe].
  destruct (terms_of_first_building carbon_series _ _ Hsame Hca) as [Hdc Hbc].
  assert (operating_contributions bs dict clip_level
          = operating_contributions bs' dict clip_level) as Hops.
  { unfold operating_contributions, scale_by_carbon.
    by rewrite Hde, Hbe, Hdc, Hbc. }
  assert (∀ contrs, design_contributions bs dict opex_factor contrs
                    = design_contributions bs' dict opex_factor contrs) as Hdes.
  { intros contrs. unfold design_contributions.
    assert (mapM (λ b, index (capacity_history (electrical_storage b)) 0) bs
            = mapM (λ b, index (capacity_history (electrical_storage b)) 0) bs')
      as ->.
    { clear -Hsame. induction Hsame as [|b b' bs bs' (_ & Hst & _) _ IH]; [done|].
      cbn [mapM]. by rewrite Hst, IH. }
    assert ((λ b, nominal_power (pv b)) <$> bs
            = (λ b, nominal_power (pv b)) <$> bs') as ->; [|done].
    clear -Hsame. induction Hsame as [|b b' bs bs' (_ & _ & Hpv) _ IH]; [done|].
    rewrite !fmap_cons. by rewrite Hpv, IH. }
  unfold calculate_objective. rewrite Hops.
  destruct (operating_contributions bs' dict clip_level) as [ops|]; [|done].
  cbn [mbind result_bind]. destruct design; [|done]. by rewrite Hdes.
Qed.

Lemma only_first_tariff_is_used_witness :
  calculate_objective
    [building_of [10; -4 # 1] [1; 1] [1; 1];
     building_of [-4 # 1; 10] [7; 9] [3]]
    Toy.prices 10 "b" true
  = calculate_objective crossing_twice Toy.prices 10 "b" true.
Proof.
  apply only_first_tariff_is_used; [|reflexivity|reflexivity].
  repeat constructor.
Defined.

(** * Sums of contributions *)






(** * Signs of the operating costs *)

Lemma sum_over_nonneg (T : nat) (f : nat → Q) :
  (∀ t, (t < T)%nat → 0 <= f t) → 0 <= Policy.sum_over T f.
Proof.
  intros H. rewrite <- (sum_over_zero T). by apply sum_over_le.
Qed.

Lemma district_level_nonneg (T : nat) (nets : list (list Q)) (price : list Q) :
  Forall (λ p, 0 <= p) price → 0 <= Policy.district_level T nets price.
Proof.
  intros Hp. apply sum_over_nonneg. intros t _.
  apply Qmult_le_0_compat; [apply clip_nonneg|by apply at_time_nonneg].
Qed.

Lemma building_level_nonneg (T : nat) (nets : list (list Q)) (price : list Q) :
  Forall (λ p, 0 <= p) price → 0 <= Policy.building_level T nets price.
Proof.
  intros Hp.
  apply Qle_trans with (Policy.district_level T nets price);
    [by apply district_level_nonneg|by apply district_le_building].
Qed.

Lemma clip_export (x : Q) : x <= 0 → Policy.clip x == 0.
Proof.
  intros H. unfold Policy.clip. destruct (Qle_bool 0 x) eqn:Hx; [|reflexivity].
  apply Qle_bool_iff in Hx. lra.
Qed.

Lemma at_time_nonpos (a : list Q) (t : nat) :
  Forall (λ x, x <= 0) a → Policy.at_time a t <= 0.
Proof.
  unfold Policy.at_time. intros H. revert t.
  induction H as [|x a Hx _ IH]; intros [|t]; simpl; try lra. apply IH.
Qed.

Lemma sum_of_nonpos {A} (f : A → Q) (l : list A) :
  Forall (λ a, f a <= 0) l → Policy.sum_of f l <= 0.
Proof. induction 1; simpl; lra. Qed.

Lemma sum_over_all_zero (T : nat) (f : nat → Q) :
  (∀ t, (t < T)%nat → f t == 0) → Policy.sum_over T f == 0.
Proof.
  intros H. rewrite <- (sum_over_zero T). by apply sum_over_ext.
Qed.

Lemma levels_of_exporters (T : nat) (nets : list (list Q)) (price : list Q) :
  Forall (Forall (λ x, x <= 0)) nets →
  Policy.district_level T nets price == 0
  ∧ Policy.building_level T nets price == 0.
Proof.
  intros Hn. split.
  - apply sum_over_all_zero. intros t _. rewrite clip_export; [lra|].
    apply sum_of_nonpos. eapply Forall_impl; [exact Hn|]. simpl.
    intros net Hnet. by apply at_time_nonpos.
  - unfold Policy.building_level.
    rewrite (sum_of_ext _ (λ _, 0)).
    + clear. induction nets as [|n nets IH]; simpl; [reflexivity|]. rewrite IH. lra.
    + eapply Forall_impl; [exact Hn|]. simpl. intros net Hnet.
      apply sum_over_all_zero. intros t _.
      rewrite clip_export; [lra|by apply at_time_nonpos].
Qed.

(** The two terms of the three clip levels, with their per-timestep
    meaning, for aligned series. *)
Lemma operating_terms (bs : list Building) (dict : gmap string Q) (k : Q) :
  aligned elec_series bs = true →
  aligned carbon_series bs = true →
  dict !! "carbon"%string = Some k →
  ∃ ed eb cd cb,
    operating_contributions bs dict "d" = Ok [ed; cd * k]
    ∧ operating_contributions bs dict "m" = Ok [eb; cd * k]
    ∧ operating_contributions bs dict "b" = Ok [eb; cb * k]
    ∧ ed == Policy.district_level (length (shared elec_series bs))
              (net_series bs) (shared elec_series bs)
    ∧ eb == Policy.building_level (length (shared elec_series bs))
              (net_series bs) (shared elec_series bs)
    ∧ cd == Policy.district_level (length (shared carbon_series bs))
              (net_series bs) (shared carbon_series bs)
    ∧ cb == Policy.building_level (length (shared carbon_series bs))
              (net_series bs) (shared carbon_series bs).
Proof.
  intros Hel Hca Hk.
  destruct (district_term_ok _ _ Hel) as (ed & Hed & Hedq).
  destruct (building_term_ok _ _ Hel) as (eb & Heb & Hebq).
  destruct (district_term_ok _ _ Hca) as (cd & Hcd & Hcdq).
  destruct (building_term_ok _ _ Hca) as (cb & Hcb & Hcbq).
  exists ed, eb, cd, cb.
  rewrite (operating_d _ _ _ _ _ Hed Hcd Hk), (operating_m _ _ _ _ _ Heb Hcd Hk),
    (operating_b _ _ _ _ _ Heb Hcb Hk). done.
Qed.

Lemma operating_unknown (bs : list Building) (dict : gmap string Q)
    (clip_level : string) :
  known_clip_level clip_level = false →
  operating_contributions bs dict clip_level = Ok [].
Proof.
  unfold known_clip_level. intros [[Hd Hb]%orb_false_elim Hm]%orb_false_elim.
  unfold operating_contributions. by rewrite Hd, Hb, Hm.
Qed.

Lemma known_clip_level_inv (clip_level : string) :
  known_clip_level clip_level = true →
  clip_level = "d"%string ∨ clip_level = "b"%string ∨ clip_level = "m"%string.
Proof.
  unfold known_clip_level. intros [[H|H]%orb_prop|H]%orb_prop;
    apply String.eqb_eq in H; auto.
Qed.

(** X8: for aligned series, price and carbon-intensity series without
    negative values and a carbon price that is not negative, every
    operating-cost entry is at least zero under every clip level, and so
    is the objective with [design=false]. *)
Theorem operating_costs_are_not_negative (bs : list Building)
    (dict : gmap string Q) (opex_factor k : Q) (clip_level : string) :
  aligned elec_series bs = true →
  aligned carbon_series bs = true →
  Forall (λ p, 0 <= p) (shared elec_series bs) →
  Forall (λ c, 0 <= c) (shared carbon_series bs) →
  dict !! "carbon"%string = Some k → 0 <= k →
  ∃ r, calculate_objective bs dict opex_factor clip_level false = Ok r
       ∧ Forall (λ c, 0 <= c) (objective_contrs r)
       ∧ 0 <= objective r.
Proof.
  intros Hel Hca Hpe Hpc Hk Hk0.
  assert (∃ ops, operating_contributions bs dict clip_level = Ok ops
                 ∧ Forall (λ c, 0 <= c) ops) as (ops & Hops & Hall).
  { destruct (known_clip_level clip_level) eqn:Hclip.
    - destruct (operating_terms bs dict k Hel Hca Hk)
        as (ed & eb & cd & cb & Hd & Hm & Hb & Hedq & Hebq & Hcdq & Hcbq).
      pose proof (district_level_nonneg (length (shared elec_series bs))
                    (net_series bs) _ Hpe).
      pose proof (building_level_nonneg (length (shared elec_series bs))
                    (net_series bs) _ Hpe).
      pose proof (district_level_nonneg (length (shared carbon_series bs))
                    (net_series bs) _ Hpc).
      pose proof (building_level_nonneg (length (shared carbon_series bs))
                    (net_series bs) _ Hpc).
      assert (0 <= ed) by lra. assert (0 <= eb) by lra.
      assert (0 <= cd * k) by (apply Qmult_le_0_compat; lra).
      assert (0 <= cb * k) by (apply Qmult_le_0_compat; lra).
      destruct (known_clip_level_inv _ Hclip) as [->|[->| ->]];
        eexists; (split; [eassumption|]); by repeat constructor.
    - exists []. split; [by apply operating_unknown|constructor]. }
  exists {| objective := np.sum ops; objective_contrs := ops |}.
  split; [|split].
  - unfold calculate_objective. by rewrite Hops.
  - exact Hall.
  - simpl. by apply np_sum_nonneg.
Qed.

Lemma operating_costs_are_not_negative_witness :
  ∃ r, calculate_objective crossing_twice Toy.prices 10 "d" false = Ok r
       ∧ Forall (λ c, 0 <= c) (objective_contrs r)
       ∧ 0 <= objective r.
Proof.
  apply (operating_costs_are_not_negative crossing_twice Toy.prices 10 (1 # 2));
    try reflexivity; repeat constructor; unfold Qle; simpl; lia.
Defined.

(** X9: export is never credited. When no building ever draws from the
    grid (all net consumption at most zero), every operating-cost entry is
    zero under every clip level, whatever the prices. *)
Theorem exporters_pay_nothing (bs : list Building) (dict : gmap string Q)
    (opex_factor k : Q) (clip_level : string) :
  aligned elec_series bs = true →
  aligned carbon_series bs = true →
  dict !! "carbon"%string = Some k →
  never_imports bs →
  ∃ r, calculate_objective bs dict opex_factor clip_level false = Ok r
       ∧ Forall (λ c, c == 0) (objective_contrs r)
       ∧ objective r == 0.
Proof.
  intros Hel Hca Hk Hne.
  assert (Forall (Forall (λ x, x <= 0)) (net_series bs)) as Hnets.
  { unfold net_series. by apply Forall_fmap. }
  assert (∃ ops, operating_contributions bs dict clip_level = Ok ops
                 ∧ Forall (λ c, c == 0) ops) as (ops & Hops & Hall).
  { destruct (known_clip_level clip_level) eqn:Hclip.
    - destruct (operating_terms bs dict k Hel Hca Hk)
        as (ed & eb & cd & cb & Hd & Hm & Hb & Hedq & Hebq & Hcdq & Hcbq).
      destruct (levels_of_exporters (length (shared elec_series bs))
                  (net_series bs) (shared elec_series bs) Hnets) as [H1 H2].
      destruct (levels_of_exporters (length (shared carbon_series bs))
                  (net_series bs) (shared carbon_series bs) Hnets) as [H3 H4].
      assert (ed == 0) by lra. assert (eb == 0) by lra.
      assert (cd * k == 0) by (rewrite Hcdq, H3; lra).
      assert (cb * k == 0) by (rewrite Hcbq, H4; lra).
      destruct (known_clip_level_inv _ Hclip) as [->|[->| ->]];
        eexists; (split; [eassumption|]); by repeat constructor.
    - exists []. split; [by apply operating_unknown|constructor]. }
  exists {| objective := np.sum ops; objective_contrs := ops |}.
  split; [|split].
  - unfold calculate_objective. by rewrite Hops.
  - exact Hall.
  - simpl. clear -Hall. induction Hall as [|x l Hx _ IH]; [reflexivity|].
    rewrite np_sum_cons, Hx, IH. lra.
Qed.

Lemma exporters_pay_nothing_witness :
  ∃ r, calculate_objective
         [building_of [-3 # 1; 0] [1; 2] [1; 1]; building_of [-1 # 1; -2 # 1] [1; 2] [1; 1]]
         Toy.prices 10 "m" false = Ok r
       ∧ Forall (λ c, c == 0) (objective_contrs r)
       ∧ objective r == 0.
Proof.
  apply (exporters_pay_nothing _ Toy.prices 10 (1 # 2)); try reflexivity.
  repeat constructor; unfold Qle; simpl; lia.
Defined.


(** * The clip levels in order *)





(** * The log of a run *)

Lemma steps_cons (ev : Event) (l : list Event) :
  length (filter is_step (ev :: l))
  = ((if is_step ev then 1 else 0) + length (filter is_step l))%nat.
Proof.
  destruct ev; [rewrite filter_cons_False by (simpl; auto)
               |rewrite filter_cons_True by done]; done.
Qed.

Lemma solves_cons (ev : Event) (l : list Event) :
  length (filter is_solve (ev :: l))
  = ((if is_solve ev then 1 else 0) + length (filter is_solve l))%nat.
Proof.
  destruct ev; [rewrite filter_cons_True by done
               |rewrite filter_cons_False by (simpl; auto)]; done.
Qed.

Lemma solve_starts_cons (ev : Event) (l : list Event) :
  solve_starts (ev :: l)
  = match ev with
    | EvSolve t _ _ => t :: solve_starts l
    | EvStep _ => solve_starts l
    end.
Proof. by destruct ev. Qed.

(** Along any stretch of the loop the log grows by one [EvStep] per pass and
    by at most one [EvSolve] before it, started at the index of the pass. *)
Lemma run_log {E : Environment} {P : Planner E} (tau : Z) (no_control : bool)
    (st st' : LoopState E P) :
  rtc (loop_step tau no_control) st st' →
  ∃ evs,
    log st' = log st ++ evs
    ∧ Z.of_nat (length (filter is_step evs)) = (num_steps st' - num_steps st)%Z
    ∧ (length (filter is_solve evs) ≤ length (filter is_step evs))%nat
    ∧ Forall (λ t, (num_steps st ≤ t < num_steps st')%Z) (solve_starts evs)
    ∧ StronglySorted Z.lt (solve_starts evs).
Proof.
  induction 1 as [st|st st1 st' [_ Hbody] _ (evs & Hlog & Hcount & Hle & Hin & Hsorted)].
  - exists []. rewrite app_nil_r. repeat split; try done; try constructor. simpl. lia.
  - destruct (loop_body_log _ _ _ _ Hbody) as (a & Hlog1 & Hnum & _).
    assert (num_steps st1 ≤ num_steps st')%Z as Hmono by lia.
    exists ((if plans tau no_control st
             then [EvSolve (num_steps st) tau (current_socs st)] else [])
            ++ [EvStep a] ++ evs).
    split. { rewrite Hlog, Hlog1. by rewrite <- !app_assoc. }
    destruct (plans tau no_control st); cbn [app];
      rewrite ?steps_cons, ?solves_cons, ?solve_starts_cons; cbn [is_step is_solve].
    + split; [lia|]. split; [lia|]. split.
      * constructor; [lia|]. eapply Forall_impl; [exact Hin|]. simpl. lia.
      * constructor; [done|]. eapply Forall_impl; [exact Hin|]. simpl. lia.
    + split; [lia|]. split; [lia|]. split; [|done].
      eapply Forall_impl; [exact Hin|]. simpl. lia.
Qed.



(** X12: [done] starts as [False], so the body of the loop runs at least
    once: whenever the simulation returns, at least one action has been
    applied (the last thing logged is an [env.step]), [done] is set, and
    the number of actions is [num_steps]. *)
Theorem at_least_one_action {E : Environment} {P : Planner E} (fuel : nat)
    (fs : FS) (schema_path : string) (dict : gmap string Q) (opex_factor : Q)
    (clip_level : string) (tau : Z) (no_control : bool) (st : LoopState E P) :
  simulate fuel fs schema_path dict opex_factor clip_level tau no_control
  = Some (Ok st) →
  done st = true
  ∧ (1 ≤ num_steps st)%Z
  ∧ Z.of_nat (length (filter is_step (log st))) = num_steps st
  ∧ ∃ l actions, log st = l ++ [EvStep actions].
Proof.
  unfold simulate. intros Hsim.
  destruct (initialise _ _ _ _ _ _) as [st0|] eqn:Hinit; [|discriminate].
  destruct (initialise_head _ _ _ _ _ _ _ Hinit) as (Hd0 & Hnum & Hlog & _).
  destruct (control_loop_reaches _ _ _ _ _ Hsim) as [Hrtc Hdone].
  split; [done|].
  destruct (rtc_inv_r _ _ Hrtc) as [<-|(prev & Hprev & [_ Hbody])]; [congruence|].
  destruct (run_log _ _ _ _ Hprev) as (evs & Hlogp & Hcountp & _).
  destruct (run_log _ _ _ _ Hrtc) as (evs' & Hlog' & Hcount' & _).
  destruct (loop_body_log _ _ _ _ Hbody) as (a & Hlast & Hn & _).
  rewrite Hlog in Hlog'. simpl in Hlog'. subst evs'.
  split; [lia|]. split; [lia|].
  eexists _, a. rewrite Hlast, app_assoc. reflexivity.
Qed.

Lemma at_least_one_action_witness :
  ∃ st : LoopState Toy.environment Toy.planner,
    simulate 3 Toy.files Toy.schema_file Toy.prices 10 "m" 48 false = Some (Ok st)
    ∧ (1 ≤ num_steps st)%Z.
Proof.
  destruct (simulate (P:=Toy.planner) 3 Toy.files Toy.schema_file Toy.prices 10
              "m" 48 false) as [[st|]|] eqn:Hsim; try discriminate.
  exists st. split; [reflexivity|].
  exact (proj1 (proj2 (at_least_one_action _ _ _ _ _ _ _ _ _ Hsim))).
Defined.


(** * The shape of an action *)

Lemma divide_shape (x capacities : list Q) (a : list np.float) :
  divide x capacities = Ok a →
  length a = (if decide (length x = 1%nat) then length capacities else length x)
  ∧ (length x = length capacities
     ∨ length capacities = 1%nat ∨ length x = 1%nat).
Proof.
  unfold divide. destruct (decide (length x = length capacities)) as [Heq|Hne].
  - intros [= <-]. rewrite length_zip_with. split; [|by left].
    case_decide; lia.
  - destruct capacities as [|c [|c' capacities]].
    + destruct x as [|x0 [|x1 x]]; [by destruct Hne| |discriminate].
      intros [= <-]. split; [done|by right; right].
    + intros [= <-]. split; [|by right; left].
      rewrite length_fmap. case_decide; [by destruct Hne|done].
    + destruct x as [|x0 [|x1 x]]; [discriminate| |discriminate].
      intros [= <-]. split; [|by right; right].
      rewrite decide_True by done. simpl. f_equal. f_equal. apply length_fmap.
Qed.

Lemma solve_for_action_shape {E : Environment} {P : Planner E} (tau : Z)
    (st : LoopState E P) (actions : list np.float) (l' : lp_t P) :
  solve_for_action tau st = Ok (actions, l') →
  length actions
  = (if decide (lp_N P l' = 1%nat) then length (battery_capacities P l')
     else lp_N P l')
  ∧ (lp_N P l' = length (battery_capacities P l')
     ∨ length (battery_capacities P l') = 1%nat ∨ lp_N P l' = 1%nat).
Proof.
  unfold solve_for_action. intros H.
  destruct (set_time_data_from_envs P _ _ _ _ _) as [l1|]; [|discriminate].
  cbn [mbind result_bind] in H.
  destruct (set_LP_parameters P l1) as [l2|]; [|discriminate].
  cbn [mbind result_bind] in H.
  destruct (solve_LP P l2) as [[inflows l3]|]; [|discriminate].
  cbn [mbind result_bind] in H.
  destruct (column inflows 0) as [first|]; [|discriminate].
  cbn [mbind result_bind] in H. unfold reshape_column in H.
  destruct (decide (length first = lp_N P l3)) as [HN|]; [|discriminate].
  cbn [mbind result_bind] in H.
  destruct (divide first (battery_capacities P l3)) as [a|] eqn:Hdiv;
    [|discriminate].
  cbn [mbind result_bind] in H. injection H as <- <-.
  apply divide_shape in Hdiv. by rewrite HN in Hdiv.
Qed.

(** X13: the size of every action handed to [env.step]. The zero action
    has [lp.N] entries. A planned action is the quotient of a column of
    [lp.N] inflows by the column of recorded capacities, under numpy's
    broadcasting: it exists only when the two sizes agree or one of them
    is 1, and it has [lp.N] entries, except when [lp.N] is 1: then it has
    one entry per recorded capacity. *)
Theorem action_size_follows_broadcasting {E : Environment} {P : Planner E}
    (tau : Z) (no_control : bool) (st st' : LoopState E P) :
  loop_body tau no_control st = Ok st' →
  ∃ actions d,
    last (log st') = Some (EvStep actions)
    ∧ step E (env st) actions = Ok (observations st', d, env st')
    ∧ (plans tau no_control st = false →
       actions = np.zeros (lp_N P (lp st'))
       ∧ length actions = lp_N P (lp st'))
    ∧ (plans tau no_control st = true →
       length actions
       = (if decide (lp_N P (lp st') = 1%nat)
          then length (battery_capacities P (lp st'))
          else lp_N P (lp st'))
       ∧ (lp_N P (lp st') = length (battery_capacities P (lp st'))
          ∨ length (battery_capacities P (lp st')) = 1%nat
          ∨ lp_N P (lp st') = 1%nat)).
Proof.
  unfold loop_body, compute_action. intros H.
  destruct (plans tau no_control st).
  - destruct (solve_for_action tau st) as [[actions l']|] eqn:Hs; [|discriminate].
    apply solve_for_action_shape in Hs.
    cbn [mbind result_bind] in H.
    destruct (step E (env st) actions) as [[[obs d] e']|] eqn:Hstep; [|discriminate].
    cbn [mbind result_bind] in H.
    destruct (get_socs obs _) as [socs|]; [|discriminate].
    simplify_eq/=. exists actions, d.
    rewrite last_app. done.
  - cbn [mbind result_bind] in H.
    destruct (step E (env st) _) as [[[obs d] e']|] eqn:Hstep; [|discriminate].
    cbn [mbind result_bind] in H.
    destruct (get_socs obs _) as [socs|]; [|discriminate].
    simplify_eq/=. exists (np.zeros (lp_N P (lp st))), d.
    rewrite last_app. split; [done|]. split; [done|].
    split; [|done]. intros _. split; [done|].
    unfold np.zeros. by rewrite length_replicate.
Qed.

Lemma action_size_follows_broadcasting_witness :
  ∃ (st0 st1 : LoopState Toy.environment Toy.planner) actions,
    initialise 1 Toy.files Toy.schema_file Toy.prices 10 "m" = Ok st0
    ∧ loop_body 1 false st0 = Ok st1
    ∧ last (log st1) = Some (EvStep actions)
    ∧ length actions = 2%nat.
Proof.
  destruct (initialise (P:=Toy.planner) 1 Toy.files Toy.schema_file
              Toy.prices 10 "m") as [st0|] eqn:Hinit; [|discriminate].
  destruct (loop_body (P:=Toy.planner) 1 false st0) as [st1|] eqn:Hbody.
  2: { injection Hinit as <-. discriminate Hbody. }
  destruct (action_size_follows_broadcasting 1 false st0 st1 Hbody)
    as (actions & d & Hlast & _ & _ & Hplanned).
  exists st0, st1, actions. split; [reflexivity|]. split; [exact Hbody|].
  split; [exact Hlast|]. apply Hplanned. by injection Hinit as <-.
Defined.

(** * A horizon that does not fit *)

Lemma short_idle_run {E : Environment} {P : Planner E} (tau : Z)
    (no_control : bool) (st st' : LoopState E P) :
  (∀ e, (time_steps E e ≤ tau)%Z) →
  (0 ≤ num_steps st)%Z →
  rtc (loop_step tau no_control) st st' →
  lp st' = lp st
  ∧ ∃ evs, log st' = log st ++ evs
           ∧ Forall (λ ev, ev = EvStep (np.zeros (lp_N P (lp st)))) evs.
Proof.
  intros Hshort Hpos Hrtc.
  induction Hrtc as [st|st st1 st' [_ Hbody] _ IH].
  - split; [done|]. exists []. by rewrite app_nil_r.
  - destruct (loop_body_log _ _ _ _ Hbody) as (a & Hlog1 & Hnum & Hidle).
    assert (plans tau no_control st = false) as Hp.
    { apply plans_terminal. specialize (Hshort (env st)). lia. }
    rewrite Hp in Hlog1. destruct (Hidle Hp) as [-> Hlp1].
    destruct IH as (Hlp & evs & Hlog & Hall); [lia|].
    rewrite Hlp1 in Hlp, Hall. split; [done|].
    exists (EvStep (np.zeros (lp_N P (lp st))) :: evs).
    split; [|by constructor].
    rewrite Hlog, Hlog1. simpl. by rewrite <- app_assoc.
Qed.

Lemma all_steps_replicate (x : list np.float) (l : list Event) :
  Forall (λ ev, ev = EvStep x) l →
  l = replicate (length (filter is_step l)) (EvStep x).
Proof.
  induction 1 as [|ev l -> _ IH]; [done|].
  rewrite steps_cons. simpl. by f_equal.
Qed.

(** X14: when the horizon is as long as the whole simulation or longer
    ([time_steps <= tau], as with the default [tau=48] on a short run), the
    planner is never asked: against an environment that raises [done] on
    its [time_steps]-th step the loop applies the zero action
    [time_steps] times and nothing else, control enabled or not. *)
Theorem horizon_beyond_the_simulation {E : Environment} {P : Planner E}
    (tau : Z) (no_control : bool) (N : nat) (clock : env_t E → Z)
    (fs : FS) (schema_path : string) (dict : gmap string Q) (opex_factor : Q)
    (clip_level : string) (st0 : LoopState E P) :
  counts_steps (E:=E) N clock →
  (∀ e, (time_steps E e ≤ tau)%Z) →
  initialise tau fs schema_path dict opex_factor clip_level = Ok st0 →
  sized N (lp st0) →
  (1 ≤ time_steps E (env st0))%Z →
  ∀ fuel, (Z.to_nat (time_steps E (env st0)) ≤ fuel)%nat →
  ∃ st' : LoopState E P,
    simulate fuel fs schema_path dict opex_factor clip_level tau no_control
    = Some (Ok st')
    ∧ log st' = replicate (Z.to_nat (time_steps E (env st0))) (EvStep (np.zeros N))
    ∧ lp st' = lp st0.
Proof.
  intros Henv Hshort Hinit Hsz HT fuel Hfuel.
  assert (solves_full_windows (P:=P) N tau) as Hplanner.
  { intros l e t socs _ Hwin. specialize (Hshort e). lia. }
  destruct (initialise_head _ _ _ _ _ _ _ Hinit)
    as (Hdone & Hnum & Hlog & (e & Hreset) & _).
  destruct (reset_clock N clock Henv _ _ _ Hreset) as (Hclock & _ & _).
  destruct (control_loop_from tau no_control N clock Henv Hplanner
              (Z.to_nat (time_steps E (env st0)) - 1) st0 fuel)
    as (st' & evs & Hrun & _ & _ & Hlog' & Hsteps & _);
    try done; try lia.
  destruct (control_loop_reaches _ _ _ _ _ Hrun) as [Hrtc _].
  destruct (short_idle_run tau no_control st0 st' Hshort) as (Hlp & evs' & Hlog'' & Hall);
    [lia|done|].
  rewrite Hlog in Hlog', Hlog''. simpl in Hlog', Hlog''. subst evs'.
  rewrite Hlog' in Hall. destruct Hsz as [HN _]. rewrite HN in Hall.
  exists st'. split; [unfold simulate; by rewrite Hinit|]. split; [|done].
  rewrite Hlog'. rewrite (all_steps_replicate _ _ Hall) at 1.
  f_equal. rewrite Hsteps. lia.
Qed.

Lemma horizon_beyond_the_simulation_witness :
  ∃ st' : LoopState Toy.environment Toy.planner,
    simulate 3 Toy.files Toy.schema_file Toy.prices 10 "m" 48 false
    = Some (Ok st')
    ∧ log st' = replicate 3 (EvStep (np.zeros 2)).
Proof.
  destruct (initialise (P:=Toy.planner) 48 Toy.files Toy.schema_file
              Toy.prices 10 "m") as [st0|] eqn:Hinit; [|discriminate].
  assert (time_steps Toy.environment (env st0) = 3%Z) as HT by reflexivity.
  destruct (horizon_beyond_the_simulation (P:=Toy.planner) 48 false 2
              (λ clock, clock) Toy.files Toy.schema_file Toy.prices 10 "m" st0
              toy_counts_steps) with (fuel := 3%nat)
    as (st' & Hsim & Hlog & _);
    [intros e; simpl; lia|exact Hinit|by split|rewrite HT; lia|rewrite HT; lia|].
  exists st'. split; [exact Hsim|]. rewrite Hlog, HT. reflexivity.
Defined.


(** * When the state of charge can be derived *)

Lemma column_length (m : list (list Q)) (j : nat) (c : list Q) :
  column m j = Ok c → length c = length m ∧ Forall (λ row, (j < length row)%nat) m.
Proof.
  unfold column. revert c. induction m as [|r m IH]; intros c H.
  - injection H as <-. by split.
  - cbn [mapM] in H. destruct (index r j) as [x|] eqn:Hx; [|discriminate].
    unfold index in Hx. destruct (r !! j) as [x'|] eqn:Hx'; [|discriminate].
    cbn [mbind result_bind] in H.
    destruct (mapM _ m) as [c'|] eqn:Hc'; [|discriminate].
    injection H as <-. destruct (IH c' eq_refl) as [Hlen Hall].
    split; [simpl; by rewrite Hlen|].
    constructor; [|done]. by apply lookup_lt_Some in Hx'.
Qed.

Lemma column_of_rows_wide (rows : list (list Q)) (c : list Q) :
  column_of_rows rows soc_obs_index = Ok c → wide rows ∧ length c = length rows.
Proof.
  unfold column_of_rows. destruct rows as [|r rows]; [discriminate|].
  destruct (forallb _ _) eqn:Hsame; [|discriminate]. intros Hcol.
  destruct (column_length _ _ _ Hcol) as [Hlen Hall]. split; [|done].
  split; [done|]. exists (length r). split.
  - by inversion Hall.
  - rewrite forallb_forall in Hsame. apply Forall_forall. intros row Hrow.
    apply Nat.eqb_eq, Hsame. by apply list_elem_of_In.
Qed.

(** X15: the state of charge can be derived exactly from an observation
    matrix: at least one row, rows of one length, more than 22 columns.
    No rows at all is an [IndexError]. The result has one entry per row,
    or per recorded capacity if these are fewer: [zip] drops the rest
    without an error. *)
Theorem socs_need_an_observation_matrix (obs : list (list Q)) (caps : list Q) :
  ((∃ socs, get_socs obs caps = Ok socs) ↔ wide obs)
  ∧ (∀ socs, get_socs obs caps = Ok socs →
       length socs = Nat.min (length obs) (length caps))
  ∧ (obs = [] → get_socs obs caps = Raise IndexError).
Proof.
  split; [|split].
  - split; [|apply get_socs_ok].
    intros [socs H]. unfold get_socs in H.
    destruct (column_of_rows obs soc_obs_index) as [c|] eqn:Hc; [|discriminate].
    by destruct (column_of_rows_wide _ _ Hc).
  - intros socs H. unfold get_socs in H.
    destruct (column_of_rows obs soc_obs_index) as [c|] eqn:Hc; [|discriminate].
    destruct (column_of_rows_wide _ _ Hc) as [_ Hlen].
    cbn [mbind result_bind] in H. injection H as <-.
    by rewrite length_zip_with, Hlen.
  - by intros ->.
Qed.

Lemma socs_need_an_observation_matrix_witness :
  (∃ socs, get_socs Toy.observation [4] = Ok socs ∧ length socs = 1%nat)
  ∧ get_socs [] [4; 8] = Raise IndexError.
Proof.
  destruct (socs_need_an_observation_matrix Toy.observation [4])
    as (Hiff & Hlen & _).
  destruct (socs_need_an_observation_matrix [] [4; 8]) as (_ & _ & Hempty).
  split; [|by apply Hempty].
  destruct (proj2 Hiff) as [socs Hsocs].
  { split; [done|]. exists 23%nat.
    split; [unfold soc_obs_index; lia|by repeat constructor]. }
  exists socs. split; [exact Hsocs|]. exact (Hlen socs Hsocs).
Defined.


(** * The keyword dictionary of the schema builder *)

Lemma merged_schema_name (caps solar effs : list Q)
    (base_kwargs : gmap string kwarg) (mproc_id : option string) :
  merged_kwargs caps solar effs base_kwargs mproc_id !! "schema_name"%string
  = match mproc_id with
    | Some id => Some (KStr ("mproc_schema_temp_" ++ id))
    | None => base_kwargs !! "schema_name"%string
    end.
Proof.
  unfold merged_kwargs. rewrite !lookup_insert_ne by done.
  destruct mproc_id; [apply lookup_insert_eq|done].
Qed.

(** X16: the capacities and efficiencies passed to the wrapper replace
    whatever [base_kwargs] holds under the three design keys; with a worker
    identifier the schema name is ['mproc_schema_temp_<id>'], replacing any
    name in [base_kwargs], and without one the name in [base_kwargs], if
    any, is kept; every other key reaches the builder unchanged. *)
Theorem design_parameters_override_base_kwargs
    (battery_capacities solar_capacities battery_efficiencies : list Q)
    (base_kwargs : gmap string kwarg) (mproc_id : option string) :
  let kwargs := merged_kwargs battery_capacities solar_capacities
                  battery_efficiencies base_kwargs mproc_id in
  kwargs !! "battery_energy_capacities"%string = Some (KNums battery_capacities)
  ∧ kwargs !! "battery_efficiencies"%string = Some (KNums battery_efficiencies)
  ∧ kwargs !! "pv_power_capacities"%string = Some (KNums solar_capacities)
  ∧ kwargs !! "schema_name"%string
    = match mproc_id with
      | Some id => Some (KStr ("mproc_schema_temp_" ++ id))
      | None => base_kwargs !! "schema_name"%string
      end
  ∧ ∀ key,
      key ≠ "battery_energy_capacities"%string →
      key ≠ "battery_efficiencies"%string →
      key ≠ "pv_power_capacities"%string →
      key ≠ "schema_name"%string →
      kwargs !! key = base_kwargs !! key.
Proof.
  unfold merged_kwargs. cbv zeta. split; [|split; [|split; [|split]]].
  - rewrite lookup_insert_ne by done. rewrite lookup_insert_ne by done.
    apply lookup_insert_eq.
  - rewrite lookup_insert_ne by done. apply lookup_insert_eq.
  - apply lookup_insert_eq.
  - apply merged_schema_name.
  - intros key H1 H2 H3 H4. rewrite !lookup_insert_ne by done.
    destruct mproc_id; [by rewrite lookup_insert_ne|done].
Qed.

Lemma design_parameters_override_base_kwargs_witness :
  merged_kwargs [4; 8] [1; 1] [1; 1]
    {[ "battery_energy_capacities"%string := KNums [1];
       "building_names"%string := KStr "UCam" ]} None
  !! "building_names"%string = Some (KStr "UCam").
Proof.
  destruct (design_parameters_override_base_kwargs [4; 8] [1; 1] [1; 1]
    {[ "battery_energy_capacities"%string := KNums [1];
       "building_names"%string := KStr "UCam" ]} None) as (_ & _ & _ & _ & H).
  rewrite H; [reflexivity|discriminate..].
Defined.




(** * Cleaning up twice *)

(** X18: the cleanup of a file not named [schema.json] works once: it
    removes that file and no other, and a second cleanup of the same path
    (a second worker that was given the same identifier) raises
    [FileNotFoundError]. For a file named [schema.json] every cleanup
    leaves the file system as it is. *)
Theorem cleanup_works_once (fs fs' : FS) (schema_path : string) :
  cleanup fs schema_path = Ok fs' →
  (path.last_component schema_path ≠ "schema.json"%string →
   is_Some (fs !! schema_path)
   ∧ fs' = delete schema_path fs
   ∧ cleanup fs' schema_path = Raise FileNotFoundError)
  ∧ (path.last_component schema_path = "schema.json"%string →
     fs' = fs ∧ cleanup fs' schema_path = Ok fs').
Proof.
  intros H. split; intros Hname.
  - rewrite (cleanup_removed _ _ Hname) in H. unfold os_remove in H.
    destruct (fs !! schema_path) as [text|] eqn:Hfile; [|discriminate].
    injection H as <-. split; [by eexists|]. split; [done|].
    rewrite (cleanup_removed _ _ Hname). unfold os_remove.
    by rewrite lookup_delete_eq.
  - rewrite (cleanup_kept _ _ Hname) in H. injection H as <-.
    split; [done|]. by apply cleanup_kept.
Qed.

Lemma cleanup_works_once_witness :
  cleanup (delete Toy.schema_file Toy.files) Toy.schema_file
  = Raise FileNotFoundError.
Proof.
  destruct (cleanup_works_once Toy.files (delete Toy.schema_file Toy.files)
              Toy.schema_file eq_refl) as [H _].
  destruct H as (_ & _ & H); [discriminate|exact H].
Defined.

(** * The name that is compared with schema.json *)

Lemma split_pieces_no_sep (s : string) : Forall (λ piece, no_sep piece = true) (path.split s).
Proof.
  induction s as [|c s IH]; simpl; [by repeat constructor|].
  destruct (Ascii.eqb c path.sep) eqn:Hc; [by constructor|].
  destruct (path.split s) as [|piece pieces].
  - constructor; [|constructor]. simpl. by rewrite Hc.
  - inversion IH as [|? ? Hp Hps]; subst. constructor; [|done].
    simpl. by rewrite Hc.
Qed.

(** X19: the name the wrapper compares with ['schema.json'] never contains
    a separator, whatever the schema path: it is one component of the
    normalised path (or the empty text). *)
Theorem compared_name_has_no_separator (schema_path : string) :
  no_sep (path.last_component schema_path) = true.
Proof.
  unfold path.last_component.
  pose proof (split_pieces_no_sep (path.normpath schema_path)) as Hall.
  destruct (last (path.split (path.normpath schema_path))) as [name|] eqn:Hlast;
    [|done].
  simpl. rewrite Forall_forall in Hall. apply Hall.
  apply last_Some in Hlast as [l ->]. apply elem_of_app. right. by left.
Qed.

(** Components that [normpath] drops at the end of a path. *)
Lemma last_component_before_dots (p : string) (comps dots : list string)
    (name : string) :
  plain_name name = true →
  p ≠ ""%string →
  path.split p = comps ++ [name] ++ dots →
  Forall (λ c, c = ""%string ∨ c = "."%string) dots →
  path.last_component p = name.
Proof.
  intros Hplain Hp Hsplit Hdots. unfold path.last_component, path.normpath.
  apply String.eqb_neq in Hp. rewrite Hp, Hsplit.
  rewrite !foldl_app. simpl. rewrite norm_step_plain by done.
  assert (∀ acc, foldl (path.norm_step (path.initial_slashes p)) acc dots = acc)
    as ->.
  { clear -Hdots. induction Hdots as [|c dots Hc _ IH]; intros acc; [done|].
    simpl. unfold path.norm_step at 2. destruct Hc as [-> | ->]; simpl; apply IH. }
  destruct (last_of_normalised (path.initial_slashes p)
              (foldl (path.norm_step (path.initial_slashes p)) [] comps)
              name Hplain) as [Hne' Hl].
  apply String.eqb_neq in Hne'. rewrite Hne', Hl. done.
Qed.

(** X20: a trailing separator or a trailing [/.] does not change the
    compared name: for a plain file name at the end of the path, the name
    compared is that file name, so [data/schema.json/] is kept like
    [data/schema.json]. *)
Theorem trailing_separator_is_ignored (dir name : string) (fs : FS) :
  plain_name name = true →
  path.last_component (dir ++ String path.sep (name ++ "/")) = name
  ∧ path.last_component (dir ++ String path.sep (name ++ "/.")) = name
  ∧ path.last_component (name ++ "/") = name
  ∧ (name = "schema.json"%string →
     cleanup fs (dir ++ String path.sep (name ++ "/")) = Ok fs).
Proof.
  intros Hplain. pose proof (plain_name_inv _ Hplain) as (Hn & Hne & _).
  assert (path.split (name ++ "/") = [name; ""%string]) as Hs1.
  { change (name ++ "/")%string with (name ++ String path.sep "")%string.
    by rewrite split_app, (split_no_sep _ Hn). }
  assert (path.split (name ++ "/.") = [name; "."%string]) as Hs2.
  { change (name ++ "/.")%string with (name ++ String path.sep ".")%string.
    by rewrite split_app, (split_no_sep _ Hn). }
  assert (path.last_component (dir ++ String path.sep (name ++ "/")) = name) as H1.
  { apply (last_component_before_dots _ (path.split dir) [""%string]); try done.
    - by apply append_nonempty_r.
    - by rewrite split_app, Hs1.
    - constructor; [by left|constructor]. }
  split; [exact H1|]. split; [|split].
  - apply (last_component_before_dots _ (path.split dir) ["."%string]); try done.
    + by apply append_nonempty_r.
    + by rewrite split_app, Hs2.
    + constructor; [by right|constructor].
  - apply (last_component_before_dots _ [] [""%string]); try done.
    + by destruct name.
    + constructor; [by left|constructor].
  - intros ->. by apply cleanup_kept.
Qed.

Lemma trailing_separator_is_ignored_witness :
  path.last_component "data/A37/schema.json/" = "schema.json"%string
  ∧ cleanup Toy.files "data/A37/schema.json/" = Ok Toy.files.
Proof.
  destruct (trailing_separator_is_ignored "data/A37" "schema.json" Toy.files
              eq_refl) as (H1 & _ & _ & H4).
  split; [exact H1|exact (H4 eq_refl)].
Defined.


(** * What the wrapper hands back *)

Lemma mixed_design_result (bs : list Building) (dict : gmap string Q)
    (opex_factor : Q) (r : EvalResults) :
  calculate_objective bs dict opex_factor "m" true = Ok r →
  length (objective_contrs r) = 4%nat
  ∧ objective r = np.sum (objective_contrs r).
Proof.
  unfold calculate_objective. intros H.
  destruct (operating_contributions bs dict "m") as [ops|] eqn:Hops;
    [|discriminate].
  apply operating_length in Hops. cbn [mbind result_bind] in H.
  destruct (design_contributions_cases bs dict opex_factor)
    as [(e & He)|(caps & kb & ks & _ & _ & _ & Hd)].
  - by rewrite He in H.
  - rewrite Hd in H. simpl in H. injection H as <-. simpl. split; [|done].
    rewrite length_app, length_fmap, Hops. reflexivity.
Qed.

(** X21: whenever the wrapper returns, what it returns comes from one
    evaluation with clip level 'm' and [design=True]: a breakdown of
    exactly four entries (electricity, carbon, battery, solar) whose sum
    is the objective. [return_contrs] only selects between the objective
    and the whole result; it changes neither the evaluation nor the files
    left behind. *)
Theorem wrapper_returns_four_entries {E : Environment} {P : Planner E}
    (build_schema : gmap string kwarg → FS → result (string * FS))
    (meanwhile : FS → FS) (fuel : nat)
    (battery_capacities solar_capacities battery_efficiencies : list Q)
    (base_kwargs : gmap string kwarg) (pricing_dict : gmap string Q)
    (opex_factor : Q) (mproc_id : option string) (return_contrs no_control : bool)
    (fs fs' : FS) (returned : Returned) :
  construct_and_evaluate_system (P:=P) build_schema meanwhile fuel
    battery_capacities solar_capacities battery_efficiencies base_kwargs
    pricing_dict opex_factor mproc_id return_contrs no_control fs
  = Some (Ok returned, fs') →
  ∃ r,
    returned = (if return_contrs then Full r else Objective (objective r))
    ∧ length (objective_contrs r) = 4%nat
    ∧ objective r = np.sum (objective_contrs r)
    ∧ ∀ return_contrs',
        construct_and_evaluate_system (P:=P) build_schema meanwhile fuel
          battery_capacities solar_capacities battery_efficiencies base_kwargs
          pricing_dict opex_factor mproc_id return_contrs' no_control fs
        = Some (Ok (if return_contrs' then Full r else Objective (objective r)),
                fs').
Proof.
  unfold construct_and_evaluate_system. intros H.
  destruct (build_schema _ fs) as [[schema_path fs1]|]; [|discriminate].
  destruct (evaluate_system _ _ _ _ _ _ _ _ _) as [[r|]|] eqn:Heval;
    [|discriminate..].
  destruct (cleanup (meanwhile fs1) schema_path) as [fs2|]; [|discriminate].
  injection H as <- <-. exists r. split; [done|].
  unfold evaluate_system in Heval.
  destruct (simulate _ _ _ _ _ _ _ _) as [[st|]|]; [|discriminate..].
  injection Heval as Heval.
  destruct (mixed_design_result _ _ _ _ Heval) as [Hlen Hsum].
  split; [done|]. split; [done|]. done.
Qed.

Lemma wrapper_returns_four_entries_witness :
  ∃ r,
    Objective (520 # 2) = Objective (objective r)
    ∧ length (objective_contrs r) = 4%nat.
Proof.
  assert (construct_and_evaluate_system (P:=Toy.planner) ToyFiles.build_schema
            ToyFiles.alone 3 [4; 8] [1; 1] [1; 1] ∅ Toy.prices 10
            (Some "7"%string) false false ∅
          = Some (Ok (Objective (520 # 2)), ∅)) as Hrun
    by (vm_compute; reflexivity).
  destruct (wrapper_returns_four_entries _ _ _ _ _ _ _ _ _ _ _ _ _ _ _ Hrun)
    as (r & Hr & Hlen & _).
  exists r. split; [exact Hr|exact Hlen].
Defined.


(** * What ends the loop *)

Lemma loop_body_done {E : Environment} {P : Planner E} (tau : Z)
    (no_control : bool) (st st' : LoopState E P) :
  loop_body tau no_control st = Ok st' →
  ∃ actions obs e', step E (env st) actions = Ok (obs, done st', e').
Proof.
  unfold loop_body. intros H.
  destruct (compute_action tau no_control st) as [[[actions l'] evs]|];
    [|discriminate].
  cbn [mbind result_bind] in H.
  destruct (step E (env st) actions) as [[[obs d] e']|] eqn:Hstep; [|discriminate].
  cbn [mbind result_bind] in H.
  destruct (get_socs obs _) as [socs|]; [|discriminate].
  simplify_eq/=. by exists actions, obs, e'.
Qed.

(** X22: nothing but the environment's [done] flag ends the loop; the step
    counter and [time_steps] are not consulted for stopping. Against an
    environment whose steps never return [done], the simulation returns
    no result with any amount of fuel: it raises or runs on. *)
Theorem only_done_ends_the_loop {E : Environment} {P : Planner E}
    (fuel : nat) (fs : FS) (schema_path : string) (dict : gmap string Q)
    (opex_factor : Q) (clip_level : string) (tau : Z) (no_control : bool) :
  (∀ e actions obs d e', step E e actions = Ok (obs, d, e') → d = false) →
  ∀ st : LoopState E P,
    simulate fuel fs schema_path dict opex_factor clip_level tau no_control
    ≠ Some (Ok st).
Proof.
  intros Hnever st Hsim. unfold simulate in Hsim.
  destruct (initialise _ _ _ _ _ _) as [st0|] eqn:Hinit; [|discriminate].
  destruct (initialise_head _ _ _ _ _ _ _ Hinit) as (Hd0 & _).
  destruct (control_loop_reaches _ _ _ _ _ Hsim) as [Hrtc Hdone].
  destruct (rtc_inv_r _ _ Hrtc) as [<-|(prev & _ & [_ Hbody])]; [congruence|].
  destruct (loop_body_done _ _ _ _ Hbody) as (a & obs & e' & Hstep).
  apply Hnever in Hstep. congruence.
Qed.

Lemma only_done_ends_the_loop_witness :
  simulate (P:=Endless.planner) 5 Toy.files Toy.schema_file Toy.prices 10 "m"
    1 false = None.
Proof.
  destruct (simulate (P:=Endless.planner) 5 Toy.files Toy.schema_file
              Toy.prices 10 "m" 1 false) as [[st|e]|] eqn:Hsim.
  - exfalso. revert Hsim.
    apply (only_done_ends_the_loop (P:=Endless.planner) 5 Toy.files
             Toy.schema_file Toy.prices 10 "m" 1 false).
    intros e actions obs d e'. simpl.
    destruct (decide _); [|discriminate]. by intros [= _ <- _].
  - discriminate Hsim.
  - reflexivity.
Defined.

(** * The whole evaluation *)

Lemma initial_capacities_exist (bs : list Building) :
  Forall (λ b, is_Some (initial_capacity b)) bs →
  ∃ caps, Forall2 (λ b c, initial_capacity b = Some c) bs caps.
Proof.
  induction 1 as [|b bs [c Hc] _ (caps & IH)]; [by exists []|].
  exists (c :: caps). by constructor.
Qed.

(** X23: [evaluate_system] returns a result whenever its collaborators
    cooperate and the data is well formed: an environment that raises
    [done] on its [time_steps]-th step, a planner that solves every full
    window, a horizon below [time_steps], and, at the loop heads the run
    can reach, series of one length, a pricing dictionary with its three
    keys and a capacity history for every building. The objective is then
    the sum of the contributions. *)
Theorem evaluation_returns {E : Environment} {P : Planner E}
    (tau : Z) (no_control : bool) (N : nat) (clock : env_t E → Z)
    (fs : FS) (schema_path : string) (dict : gmap string Q) (opex_factor : Q)
    (clip_level : string) (design : bool) (st0 : LoopState E P) :
  counts_steps (E:=E) N clock →
  solves_full_windows (P:=P) N tau →
  initialise tau fs schema_path dict opex_factor clip_level = Ok st0 →
  sized N (lp st0) →
  (0 ≤ tau < time_steps E (env st0))%Z →
  (∀ st, rtc (loop_step tau no_control) st0 st →
         aligned elec_series (env_buildings E (env st)) = true
         ∧ aligned carbon_series (env_buildings E (env st)) = true
         ∧ Forall (λ b, is_Some (initial_capacity b)) (env_buildings E (env st))
         ∧ is_Some (lp_pricing_dict P (lp st) !! "carbon"%string)
         ∧ is_Some (lp_pricing_dict P (lp st) !! "battery"%string)
         ∧ is_Some (lp_pricing_dict P (lp st) !! "solar"%string)) →
  ∀ fuel, (Z.to_nat (time_steps E (env st0)) ≤ fuel)%nat →
  ∃ r,
    evaluate_system (P:=P) fuel fs schema_path dict opex_factor clip_level
      design tau no_control = Some (Ok r)
    ∧ objective r = np.sum (objective_contrs r)
    ∧ length (objective_contrs r) = entries clip_level design.
Proof.
  intros Henv Hplanner Hinit Hsz Htau Hdata fuel Hfuel.
  destruct (initialise_head _ _ _ _ _ _ _ Hinit)
    as (Hdone & Hnum & Hlog & (e & Hreset) & _).
  destruct (reset_clock N clock Henv _ _ _ Hreset) as (Hclock & _ & _).
  destruct (control_loop_from tau no_control N clock Henv Hplanner
              (Z.to_nat (time_steps E (env st0)) - 1) st0 fuel)
    as (st' & evs & Hrun & _); try done; try lia.
  destruct (control_loop_reaches _ _ _ _ _ Hrun) as [Hrtc _].
  destruct (Hdata st' Hrtc)
    as (Hel & Hca & Hcaps & [k Hk] & [kb Hkb] & [ks Hks]).
  destruct (initial_capacities_exist _ Hcaps) as (caps & Hcaps').
  set (bs := env_buildings E (env st')) in *.
  set (prices := lp_pricing_dict P (lp st')) in *.
  assert (∃ ops, operating_contributions bs prices clip_level = Ok ops
                 ∧ length ops = if known_clip_level clip_level then 2%nat else 0%nat)
    as (ops & Hops & Hlen).
  { destruct (known_clip_level clip_level) eqn:Hclip.
    - destruct (operating_terms bs prices k Hel Hca Hk)
        as (ed & eb & cd & cb & Hd & Hm & Hb & _).
      destruct (known_clip_level_inv _ Hclip) as [->|[->| ->]]; by eexists.
    - exists []. split; [by apply operating_unknown|done]. }
  unfold evaluate_system, simulate, entries. rewrite Hinit, Hrun, <- Hlen.
  unfold calculate_objective. fold bs prices. rewrite Hops.
  cbn [mbind result_bind]. destruct design.
  - rewrite (design_contributions_ok _ _ _ _ _ _ _ Hcaps' Hkb Hks).
    eexists. split; [reflexivity|]. simpl. split; [done|].
    rewrite length_app, length_fmap. simpl. lia.
  - eexists. split; [reflexivity|]. simpl. split; [done|lia].
Qed.

Lemma toy_planner_is_constant (tau : Z) (no_control : bool)
    (st st' : LoopState Toy.environment Toy.planner) :
  rtc (loop_step tau no_control) st st' → lp st' = lp st.
Proof.
  induction 1 as [st|st st1 st' [_ Hbody] _ IH]; [done|].
  rewrite IH. clear IH. revert Hbody.
  unfold loop_body, compute_action, solve_for_action, reshape_column, divide.
  destruct (plans tau no_control st); simpl; intros Hbody;
    repeat (case_decide; simpl in Hbody); by simplify_eq/=.
Qed.

Lemma evaluation_returns_witness :
  ∃ r,
    evaluate_system (P:=Toy.planner) 3 Toy.files Toy.schema_file Toy.prices 10
      "m" true 1 false = Some (Ok r)
    ∧ objective r = np.sum (objective_contrs r)
    ∧ length (objective_contrs r) = 4%nat.
Proof.
  destruct (initialise (P:=Toy.planner) 1 Toy.files Toy.schema_file
              Toy.prices 10 "m") as [st0|] eqn:Hinit; [|discriminate].
  assert (time_steps Toy.environment (env st0) = 3%Z) as HT by reflexivity.
  assert (lp st0 = Toy.prices) as Hlp by (by injection Hinit as <-).
  pose proof (evaluation_returns (P:=Toy.planner) 1 false 2 (λ clock, clock)
    Toy.files Toy.schema_file Toy.prices 10 "m" true st0
    toy_counts_steps (toy_solves 1) Hinit) as H.
  rewrite HT in H. apply H; [by split|lia| |simpl; lia].
  intros st Hrtc. apply toy_planner_is_constant in Hrtc. simpl.
  rewrite Hrtc, Hlp.
  split; [reflexivity|]. split; [reflexivity|].
  split; [repeat constructor; by eexists|].
  split; [|split]; by eexists.
Defined.
